(** * polypong: the authoritative room of the multiplayer polygon pong server

    A shallow embedding of [server/ServerGame.js] (the room: players, paddles,
    ready edges, match phase, tick loop) and of the socket handlers of the
    server entry point (instance routing, [joinRoom], [disconnect]).

    JavaScript numbers that hold times and positions are modelled as
    rationals ([Q]); the only operations the room performs on them are
    subtraction, division by 1000, comparison and [Math.floor].  The [Map]
    of players is a [gmap string nat], the [Set] of ready edges a
    [gset nat], the paddle array a [list].  Messages handed to
    [io.to(roomId).emit] are appended to an output log carried by the room. *)

From Stdlib Require Import ZArith QArith Qround Lqa Lia.
From stdpp Require Import base gmap strings list fin_maps.

Local Open Scope Z_scope.
Local Open Scope nat_scope.

(** ** Data model *)

(** The match phase, [this.gameState]. *)
Inductive Phase : Set := COUNTDOWN | PLAYING | SCORING | TERMINATED.

#[global] Instance Phase_eq_dec : EqDecision Phase.
Proof. solve_decision. Defined.

(** A paddle: [edgeIndex], [position], [width], [moveDirection]. *)
Record Paddle : Set := mkPaddle {
  edgeIndex : nat;
  position : Q;
  width : Q;
  moveDirection : Z
}.

Record Ball : Set := mkBall { ball_x : Q; ball_y : Q; ball_vx : Q; ball_vy : Q }.

(** The fields inherited from [BaseGame] that [ServerGame.js] only reads
    (and copies into snapshots): the polygon, the ball, score and timers. *)
Record Simulation : Set := mkSimulation {
  sides : nat;                (* polygon.sides *)
  rotation : Q;               (* polygon.rotation *)
  rotationSpeed : Q;          (* polygon.rotationSpeed *)
  rotationDirection : Z;
  ball : Ball;
  difficulty : Q;
  score : Z;
  lastScore : Z;
  finalTime : Z;
  timeElapsed : Q;
  countdownTimer : Q;
  celebrationTimer : Q
}.

(** The payload of a [gameState] broadcast (the [timestamp: Date.now()]
    field, a wall-clock reading, is left out).  The array
    [Array.from(this.readyEdges)] is carried as the set of its elements:
    a JavaScript [Set] has no duplicates, and the order in which it lists
    the edges, that of their insertion, is not part of the model. *)
Record Snapshot : Type := mkSnapshot {
  s_ball : Ball;
  s_rotation : Q;
  s_rotationSpeed : Q;
  s_rotationDirection : Z;
  s_paddles : list (nat * Q * Q);    (* edgeIndex, position, width *)
  s_readyEdges : gset nat;
  s_difficulty : Q;
  s_gameState : Phase;
  s_score : Z;
  s_lastScore : Z;
  s_finalTime : Z;
  s_timeElapsed : Q;
  s_scoreDisplayTimer : Q;
  s_countdownTimer : Q;
  s_celebrationTimer : Q
}.

(** Messages emitted to the members of the room. *)
Inductive Msg : Type :=
  | gameStateMsg (s : Snapshot)
  | gameTerminated (reason : string) (lastScore : Z) (finalTime : Z).

(** The room object.  [interval] tells whether the [setInterval] timer
    stored in [this.interval] is armed; [out] is the log of emissions. *)
Record ServerGame : Type := mkServerGame {
  sim : Simulation;
  paddles : list Paddle;
  gameState : Phase;
  restarting : bool;
  players : gmap string nat;     (* socketId -> edgeIndex *)
  readyEdges : gset nat;
  running : bool;
  interval : bool;
  lastTime : Q;
  scoreDisplayTimer : Q;
  out : list Msg
}.

(** Field assignments. *)
Definition set_sim (v : Simulation) (g : ServerGame) : ServerGame :=
  mkServerGame v (paddles g) (gameState g) (restarting g) (players g)
    (readyEdges g) (running g) (interval g) (lastTime g) (scoreDisplayTimer g) (out g).

Definition set_paddles (v : list Paddle) (g : ServerGame) : ServerGame :=
  mkServerGame (sim g) v (gameState g) (restarting g) (players g)
    (readyEdges g) (running g) (interval g) (lastTime g) (scoreDisplayTimer g) (out g).

Definition set_restarting (v : bool) (g : ServerGame) : ServerGame :=
  mkServerGame (sim g) (paddles g) (gameState g) v (players g)
    (readyEdges g) (running g) (interval g) (lastTime g) (scoreDisplayTimer g) (out g).

Definition set_players (v : gmap string nat) (g : ServerGame) : ServerGame :=
  mkServerGame (sim g) (paddles g) (gameState g) (restarting g) v
    (readyEdges g) (running g) (interval g) (lastTime g) (scoreDisplayTimer g) (out g).

Definition set_readyEdges (v : gset nat) (g : ServerGame) : ServerGame :=
  mkServerGame (sim g) (paddles g) (gameState g) (restarting g) (players g)
    v (running g) (interval g) (lastTime g) (scoreDisplayTimer g) (out g).

Definition set_running (v : bool) (g : ServerGame) : ServerGame :=
  mkServerGame (sim g) (paddles g) (gameState g) (restarting g) (players g)
    (readyEdges g) v (interval g) (lastTime g) (scoreDisplayTimer g) (out g).

Definition set_lastTime (v : Q) (g : ServerGame) : ServerGame :=
  mkServerGame (sim g) (paddles g) (gameState g) (restarting g) (players g)
    (readyEdges g) (running g) (interval g) v (scoreDisplayTimer g) (out g).

(** [setInterval] arms the timer, [clearInterval(this.interval)] disarms it. *)
Definition setInterval (g : ServerGame) : ServerGame :=
  mkServerGame (sim g) (paddles g) (gameState g) (restarting g) (players g)
    (readyEdges g) (running g) true (lastTime g) (scoreDisplayTimer g) (out g).

Definition clearInterval (g : ServerGame) : ServerGame :=
  mkServerGame (sim g) (paddles g) (gameState g) (restarting g) (players g)
    (readyEdges g) (running g) false (lastTime g) (scoreDisplayTimer g) (out g).

(** [io.to(this.roomId).emit(...)]. *)
Definition emit (m : Msg) (g : ServerGame) : ServerGame :=
  mkServerGame (sim g) (paddles g) (gameState g) (restarting g) (players g)
    (readyEdges g) (running g) (interval g) (lastTime g) (scoreDisplayTimer g)
    (out g ++ [m]).

(** Modelled from the spec: [BaseGame.setGameState] (BaseGame.js is not part
    of the sources at hand).  The match state machine "mutates phase": the
    call stores the new phase. *)
Definition setGameState (p : Phase) (g : ServerGame) : ServerGame :=
  mkServerGame (sim g) (paddles g) p (restarting g) (players g)
    (readyEdges g) (running g) (interval g) (lastTime g) (scoreDisplayTimer g) (out g).

Definition set_moveDirection (dir : Z) (p : Paddle) : Paddle :=
  mkPaddle (edgeIndex p) (position p) (width p) dir.

Definition snapshot (g : ServerGame) : Snapshot :=
  {| s_ball := ball (sim g);
     s_rotation := rotation (sim g);
     s_rotationSpeed := rotationSpeed (sim g);
     s_rotationDirection := rotationDirection (sim g);
     s_paddles := map (fun p => (edgeIndex p, position p, width p)) (paddles g);
     s_readyEdges := readyEdges g;
     s_difficulty := difficulty (sim g);
     s_gameState := gameState g;
     s_score := score (sim g);
     s_lastScore := lastScore (sim g);
     s_finalTime := finalTime (sim g);
     s_timeElapsed := timeElapsed (sim g);
     s_scoreDisplayTimer := scoreDisplayTimer g;
     s_countdownTimer := countdownTimer (sim g);
     s_celebrationTimer := celebrationTimer (sim g) |}.

Definition broadcastState (g : ServerGame) : ServerGame :=
  emit (gameStateMsg (snapshot g)) g.

(** ** The base class

    [ServerGame extends BaseGame]; BaseGame.js and Paddle.js are not part of
    the sources at hand.  What the room calls from them is an interface:
    the room's methods below are written against any implementation. *)
Class BaseGame : Type := {
  (** [resetState()], "BaseGame reset": acts on the simulation fields. *)
  resetState : Simulation -> Simulation;
  (** [super.update(dt)]: the room after the step, and whether the step
      returned normally ([false]: it threw). *)
  super_update : Q -> ServerGame -> ServerGame * bool;
  (** [p.move(direction, dt)]. *)
  Paddle_move : Z -> Q -> Paddle -> Paddle;
  (** [position] and [width] given by [new Paddle(edgeIndex)]. *)
  Paddle_position0 : Q;
  Paddle_width0 : Q;
  (** The simulation fields set up by the constructor ([super()]). *)
  initial_sim : Simulation
}.

(** ** The room: server/ServerGame.js *)

Section ServerGame_methods.
Context `{BG : BaseGame}.

(** Modelled from the spec: the [Paddle] constructor (Paddle.js is missing).
    A paddle has an edge index, a position, a width and a pending move
    direction "set by input": a new paddle has none pending. *)
Definition new_Paddle (e : nat) : Paddle :=
  mkPaddle e Paddle_position0 Paddle_width0 0%Z.

(** [new Set(this.paddles.map(p => p.edgeIndex))]. *)
Definition occupiedIndices (g : ServerGame) : gset nat :=
  list_to_set (map edgeIndex (paddles g)).

(** [while (occupiedIndices.has(edgeIndex) && edgeIndex < sides) edgeIndex++].
    Every iteration that continues has [edgeIndex < sides], so the loop
    started at 0 makes at most [sides] iterations: that is the fuel
    [addPlayer] gives it. *)
Fixpoint scan (occupied : gset nat) (n : nat) (fuel : nat) (e : nat) : nat :=
  match fuel with
  | O => e
  | S fuel' =>
      if bool_decide (e ∈ occupied) && (e <? n)
      then scan occupied n fuel' (S e)
      else e
  end.

Definition addPlayer (socketId : string) (g : ServerGame) : Z * ServerGame :=
  if (sides (sim g) <=? length (paddles g)) then ((-1)%Z, g)
  else
    let e := scan (occupiedIndices g) (sides (sim g)) (sides (sim g)) 0 in
    if (sides (sim g) <=? e) then ((-1)%Z, g)
    else
      let g1 := set_paddles (paddles g ++ [new_Paddle e]) g in
      let g2 := set_players (<[socketId := e]> (players g1)) g1 in
      (Z.of_nat e, broadcastState g2).

(** [resetGame]; [now] is the reading of [performance.now()].  The
    [try]/[finally] brackets calls that are total in this model. *)
Definition resetGame (now : Q) (g : ServerGame) : ServerGame :=
  if restarting g then g
  else
    let g1 := set_restarting true g in
    let g2 := setGameState COUNTDOWN g1 in
    let g3 := set_sim (resetState (sim g2)) g2 in
    let g4 := set_readyEdges ∅ g3 in
    let g5 := set_paddles
                (map (fun p => mkPaddle (edgeIndex p) (1 # 2) (width p) 0%Z)
                     (paddles g4)) g4 in
    let g6 := set_lastTime now g5 in
    let g7 := broadcastState g6 in
    set_restarting false g7.

(** [Array.from(this.players.values()).every(idx => this.readyEdges.has(idx))] *)
Definition allReady (g : ServerGame) : bool :=
  forallb (fun idx => bool_decide (idx ∈ readyEdges g))
          (map snd (map_to_list (players g))).

Definition checkAllReady (now : Q) (g : ServerGame) : ServerGame :=
  if restarting g then g
  else if negb (bool_decide (gameState g = SCORING))
          || bool_decide (size (players g) = 0) then g
  else if Qlt_le_dec 0 (celebrationTimer (sim g)) then g
  else if allReady g then resetGame now g
  else g.

Definition terminateGame (reason : string) (g : ServerGame) : ServerGame :=
  let g1 := setGameState TERMINATED g in
  let g2 := set_running false g1 in
  let g3 := clearInterval g2 in
  emit (gameTerminated reason (score (sim g3)) (Qfloor (timeElapsed (sim g3)))) g3.

Definition removePlayer (now : Q) (socketId : string) (g : ServerGame) : ServerGame :=
  match players g !! socketId with
  | None => g
  | Some e =>
      let g1 := set_players (delete socketId (players g)) g in
      let g2 := set_readyEdges (readyEdges g1 ∖ {[e]}) g1 in
      let g3 := set_paddles (filter (fun p => edgeIndex p ≠ e) (paddles g2)) g2 in
      let g4 := broadcastState g3 in
      let g5 := checkAllReady now g4 in
      if running g5 && bool_decide (gameState g5 = PLAYING)
      then terminateGame "A player left the game" g5
      else g5
  end.

Definition toggleReady (now : Q) (socketId : string) (isReady : bool)
    (g : ServerGame) : ServerGame :=
  match players g !! socketId with
  | None => g
  | Some e =>
      let g1 := if isReady
                then set_readyEdges (readyEdges g ∪ {[e]}) g
                else set_readyEdges (readyEdges g ∖ {[e]}) g in
      let g2 := broadcastState g1 in
      checkAllReady now g2
  end.

(** [this.paddles.find(p => p.edgeIndex === index)], then the assignment
    [paddle.moveDirection = dir] on the paddle found (the first match). *)
Fixpoint steer (index : nat) (dir : Z) (ps : list Paddle) : list Paddle :=
  match ps with
  | [] => []
  | p :: ps' =>
      if bool_decide (edgeIndex p = index)
      then set_moveDirection dir p :: ps'
      else p :: steer index dir ps'
  end.

Definition handleInput (socketId : string) (dir : Z) (g : ServerGame) : ServerGame :=
  if bool_decide (gameState g = SCORING) then g
  else
    match players g !! socketId with
    | None => g
    | Some index => set_paddles (steer index dir (paddles g)) g
    end.

Definition start (now : Q) (g : ServerGame) : ServerGame :=
  setInterval (set_lastTime now (set_running true g)).

Definition stop (g : ServerGame) : ServerGame :=
  clearInterval (set_running false g).

(** [update(dt)]: the base step, then every paddle with a pending
    direction moves. *)
Definition update (dt : Q) (g : ServerGame) : ServerGame * bool :=
  let (g1, ok) := super_update dt g in
  if ok
  then (set_paddles
          (map (fun p => if bool_decide (moveDirection p ≠ 0%Z)
                         then Paddle_move (moveDirection p) dt p else p)
               (paddles g1)) g1, true)
  else (g1, false).

(** The time delta [loop] computes from the clock reading [time]:
    [(time - this.lastTime) / 1000], replaced by 0.1 when larger. *)
Definition loop_dt (time : Q) (g : ServerGame) : Q :=
  let dt := ((time - lastTime g) / 1000)%Q in
  if Qlt_le_dec (1 # 10) dt then (1 # 10)%Q else dt.

(** [loop]: one tick; an exception of the step is caught and stops the room. *)
Definition loop (time : Q) (g : ServerGame) : ServerGame :=
  let dt := loop_dt time g in
  let g1 := set_lastTime time g in
  let (g2, ok) := update dt g1 in
  if ok then broadcastState g2 else stop g2.

(** The timer of [start] fires [loop] only while it is armed. *)
Definition timer_fires (time : Q) (g : ServerGame) : ServerGame :=
  if interval g then loop time g else g.

(** [onCelebrationEnd], the hook the base step calls when the celebration
    timer runs out. *)
Definition onCelebrationEnd (now : Q) (g : ServerGame) : ServerGame :=
  checkAllReady now g.

End ServerGame_methods.

(** ** The server entry point: instance routing and socket handlers *)

(** JavaScript truthiness of a value that is [undefined]/[null] or a string. *)
Definition truthy (v : option string) : bool :=
  match v with
  | Some s => negb (String.eqb s "")
  | None => false
  end.

(** [process.env.FLY_MACHINE_ID || 'local'] and [!!process.env.FLY_MACHINE_ID]. *)
Definition instanceId (FLY_MACHINE_ID : option string) : string :=
  if truthy FLY_MACHINE_ID then default "local" FLY_MACHINE_ID else "local".

Definition isFlyInstance (FLY_MACHINE_ID : option string) : bool :=
  truthy FLY_MACHINE_ID.

(** What [new URL(req.url, ...)] gives the router: the path and
    [searchParams.get('instance')]. *)
Record ParsedUrl : Set := mkParsedUrl {
  pathname : string;
  searchParams_instance : option string
}.

(** What the routing code reads of an HTTP request or upgrade.  The
    router parses [req.url] itself ([None]: [new URL] throws); the engine
    reads its own parse of the query, [req._query?.instance]; both read
    the [x-fly-instance] header. *)
Record Request : Set := mkRequest {
  url : option ParsedUrl;
  engine_query_instance : option string;
  header_instance : option string
}.

(** [a || b] on such values. *)
Definition or_else (a b : option string) : option string :=
  if truthy a then a else b.

(** [handleFlyInstanceRouting]: [Some target] when the request is answered
    with a 307 [fly-replay: instance=target] (the function returns [true]),
    [None] when it is passed on (it returns [false]), which is also what
    the [catch] does when the URL cannot be parsed. *)
Definition handleFlyInstanceRouting (FLY_MACHINE_ID : option string)
    (req : Request) : option string :=
  if negb (isFlyInstance FLY_MACHINE_ID) then None
  else
    match url req with
    | None => None
    | Some u =>
        if negb (String.prefix "/socket.io/" (pathname u)) then None
        else
          let targetInstance :=
            or_else (searchParams_instance u) (header_instance req) in
          if truthy targetInstance
             && negb (bool_decide
                        (targetInstance = Some (instanceId FLY_MACHINE_ID)))
          then targetInstance
          else None
    end.

(** [allowRequest]: [true] when the engine accepts the connection. *)
Definition allowRequest (FLY_MACHINE_ID : option string) (req : Request) : bool :=
  let targetInstance :=
    or_else (engine_query_instance req) (header_instance req) in
  negb (truthy targetInstance
        && negb (bool_decide (targetInstance = Some (instanceId FLY_MACHINE_ID)))
        && isFlyInstance FLY_MACHINE_ID).

(** The argument of [joinRoom]: the old string format or an object. *)
Inductive JoinData : Set :=
  | JoinString (roomId : string)
  | JoinObject (roomId : string) (instance : option string).

(** Messages sent to one socket. *)
Inductive SocketMsg : Set :=
  | errorMsg (message : string) (expectedInstance currentInstance : string)
  | initMsg (playerIndex : Z) (sides : nat) (instanceId : string).

(** The process: room objects live in [objects] and are referred to by
    their index, from the registry [games] and from the closures of the
    listeners that sockets registered. *)
Record Server : Type := mkServer {
  objects : list ServerGame;
  games : gmap string nat;                         (* roomId -> ServerGame *)
  disconnectListeners : gmap string (list (string * nat));
                                 (* socket -> (roomId, game) per joinRoom *)
  gameListeners : gmap string nat;   (* socket -> game of 'input'/'playerReady' *)
  sent : list (string * SocketMsg)
}.

Section Server_handlers.
Context `{BG : BaseGame}.
Variable FLY_MACHINE_ID : option string.

(** Modelled from the spec: what the [BaseGame] constructor leaves in the
    fields the room shares with it (BaseGame.js is missing).  A room starts
    in [COUNTDOWN] ("initial, entered on room creation") with one paddle
    per connected player, so none. *)
Definition new_ServerGame : ServerGame :=
  {| sim := initial_sim; paddles := []; gameState := COUNTDOWN;
     restarting := false; players := ∅; readyEdges := ∅; running := false;
     interval := false; lastTime := 0; scoreDisplayTimer := 0; out := [] |}.

Definition set_object (r : nat) (g : ServerGame) (s : Server) : Server :=
  mkServer (<[r := g]> (objects s)) (games s) (disconnectListeners s)
    (gameListeners s) (sent s).

Definition socket_emit (socketId : string) (m : SocketMsg) (s : Server) : Server :=
  mkServer (objects s) (games s) (disconnectListeners s) (gameListeners s)
    (sent s ++ [(socketId, m)]).

(** One ['disconnect'] listener, closed over [roomId] and [game]. *)
Definition disconnect_listener (now : Q) (socketId : string)
    (l : string * nat) (s : Server) : Server :=
  match objects s !! l.2 with
  | None => s
  | Some g =>
      let g1 := removePlayer now socketId g in
      if bool_decide (size (players g1) = 0)
      then mkServer (<[l.2 := stop g1]> (objects s)) (delete l.1 (games s))
             (disconnectListeners s) (gameListeners s) (sent s)
      else set_object l.2 g1 s
  end.

(** The socket closes: its ['disconnect'] listeners run in the order they
    were registered, and the socket is gone with all its listeners. *)
Definition disconnect (now : Q) (socketId : string) (s : Server) : Server :=
  let s1 := foldl (fun s' l => disconnect_listener now socketId l s') s
                  (default [] (disconnectListeners s !! socketId)) in
  mkServer (objects s1) (games s1) (delete socketId (disconnectListeners s1))
    (delete socketId (gameListeners s1)) (sent s1).

Definition joinRoom (now : Q) (socketId : string) (data : JoinData)
    (s : Server) : Server :=
  let roomId := match data with JoinString r => r | JoinObject r _ => r end in
  let requestedInstance :=
    match data with JoinString _ => None | JoinObject _ i => i end in
  if truthy requestedInstance
     && negb (bool_decide (requestedInstance = Some (instanceId FLY_MACHINE_ID)))
     && isFlyInstance FLY_MACHINE_ID
  then
    disconnect now socketId
      (socket_emit socketId
         (errorMsg "Connected to wrong instance"
            (default "" requestedInstance) (instanceId FLY_MACHINE_ID)) s)
  else
    let s1 :=
      match games s !! roomId with
      | Some _ => s
      | None =>
          mkServer (objects s ++ [start now new_ServerGame])
            (<[roomId := length (objects s)]> (games s))
            (disconnectListeners s) (gameListeners s) (sent s)
      end in
    match games s1 !! roomId with
    | None => s1
    | Some r =>
        match objects s1 !! r with
        | None => s1
        | Some g =>
            let (playerIndex, g') := addPlayer socketId g in
            let s2 := set_object r g' s1 in
            let s3 := socket_emit socketId
                        (initMsg playerIndex (sides (sim g'))
                           (instanceId FLY_MACHINE_ID)) s2 in
            mkServer (objects s3) (games s3)
              (<[socketId := default [] (disconnectListeners s3 !! socketId)
                               ++ [(roomId, r)]]> (disconnectListeners s3))
              (<[socketId := r]> (gameListeners s3)) (sent s3)
        end
    end.

(** The ['input'] and ['playerReady'] listeners of a socket. *)
Definition input (socketId : string) (dir : Z) (s : Server) : Server :=
  match gameListeners s !! socketId with
  | None => s
  | Some r =>
      match objects s !! r with
      | None => s
      | Some g => set_object r (handleInput socketId dir g) s
      end
  end.

Definition playerReady (now : Q) (socketId : string) (ready : bool)
    (s : Server) : Server :=
  match gameListeners s !! socketId with
  | None => s
  | Some r =>
      match objects s !! r with
      | None => s
      | Some g => set_object r (toggleReady now socketId ready g) s
      end
  end.

(** The interval timer of room object [r] comes due. *)
Definition tick (time : Q) (r : nat) (s : Server) : Server :=
  match objects s !! r with
  | None => s
  | Some g => set_object r (timer_fires time g) s
  end.

End Server_handlers.

(** ** Runs of a room *)

(** What can happen to a room once it exists: the four calls the socket
    handlers make, and its interval timer coming due. *)
Inductive RoomOp : Type :=
  | OpAddPlayer (socketId : string)
  | OpRemovePlayer (now : Q) (socketId : string)
  | OpToggleReady (now : Q) (socketId : string) (isReady : bool)
  | OpHandleInput (socketId : string) (dir : Z)
  | OpTimer (time : Q).

Section Runs.
Context `{BG : BaseGame}.

Definition apply_op (op : RoomOp) (g : ServerGame) : ServerGame :=
  match op with
  | OpAddPlayer socketId => (addPlayer socketId g).2
  | OpRemovePlayer now socketId => removePlayer now socketId g
  | OpToggleReady now socketId isReady => toggleReady now socketId isReady g
  | OpHandleInput socketId dir => handleInput socketId dir g
  | OpTimer time => timer_fires time g
  end.

Definition run (ops : list RoomOp) (g : ServerGame) : ServerGame :=
  foldl (fun g' op => apply_op op g') g ops.

(** A sequence of [toggleReady] calls: clock reading, caller, value. *)
Definition toggles (calls : list (Q * string * bool)) (g : ServerGame) : ServerGame :=
  foldl (fun g' c => toggleReady c.1.1 c.1.2 c.2 g') g calls.

End Runs.

(** The first half of [toggleReady] for a player on edge [e]: the edge is
    added to or deleted from the ready edges and the state is broadcast. *)
Definition recorded (e : nat) (isReady : bool) (g : ServerGame) : ServerGame :=
  broadcastState
    (set_readyEdges (if isReady then readyEdges g ∪ {[e]} else readyEdges g ∖ {[e]}) g).

Definition is_gameState (m : Msg) : Prop :=
  match m with gameStateMsg _ => True | gameTerminated _ _ _ => False end.

(** ** Room invariants *)

Definition paddleEdges (g : ServerGame) : list nat := map edgeIndex (paddles g).

(** The edges held by players: the values of the players map. *)
Definition occupied (g : ServerGame) (e : nat) : Prop :=
  ∃ socketId, players g !! socketId = Some e.

(** One paddle per edge, the paddles' edges are exactly the players' edges,
    and only occupied edges are ready. *)
Definition room_invariant (g : ServerGame) : Prop :=
  NoDup (paddleEdges g)
  ∧ (∀ e, e ∈ paddleEdges g ↔ occupied g e)
  ∧ (∀ e, e ∈ readyEdges g → e ∈ paddleEdges g).

(** A room whose match was terminated: the phase is final and the loop
    is off. *)
Definition terminated (g : ServerGame) : Prop :=
  gameState g = TERMINATED ∧ running g = false ∧ interval g = false.

(** No two players share an edge. *)
Definition players_injective (g : ServerGame) : Prop :=
  ∀ s1 s2 e, players g !! s1 = Some e → players g !! s2 = Some e → s1 = s2.

(** ** Server invariants *)

(** Room object [r] has no player other than [socketId]. *)
Definition only_player (socketId : string) (r : nat) (s : Server) : Prop :=
  ∃ g, objects s !! r = Some g
       ∧ ∀ other, other ≠ socketId → players g !! other = None.

(** The room is gone: the registry has no entry for [roomId], and the
    object [r] has no player, is not running and has its timer cleared. *)
Definition destroyed (roomId : string) (r : nat) (s : Server) : Prop :=
  games s !! roomId = None
  ∧ ∃ g, objects s !! r = Some g
         ∧ players g = ∅ ∧ running g = false ∧ interval g = false.

(** From [s] to [s'] nothing was admitted: no room object was created, no
    room was registered, and no room gained a player. *)
Definition admits_nothing (s s' : Server) : Prop :=
  length (objects s') = length (objects s)
  ∧ games s' ⊆ games s
  ∧ ∀ r g', objects s' !! r = Some g' →
            ∃ g, objects s !! r = Some g ∧ players g' ⊆ players g.

(** ** Calls, sound rooms and server events *)

(** The calls of the socket handlers, as opposed to the timer. *)
Definition is_call (op : RoomOp) : Prop :=
  match op with OpTimer _ => False | _ => True end.

(** A call made when the clock, [performance.now()], read no more than
    [T]. *)
Definition read_before (T : Q) (op : RoomOp) : Prop :=
  match op with
  | OpRemovePlayer now _ | OpToggleReady now _ _ => (now <= T)%Q
  | OpAddPlayer _ | OpHandleInput _ _ => True
  | OpTimer _ => False
  end.

(** What every room keeps whoever calls: paddles on pairwise distinct
    edges, a paddle on the edge of every player, no edge shared by two
    players, and no ready edge without a paddle. *)
Definition room_sound (g : ServerGame) : Prop :=
  NoDup (paddleEdges g)
  ∧ (∀ socketId e, players g !! socketId = Some e → e ∈ paddleEdges g)
  ∧ players_injective g
  ∧ (∀ e, e ∈ readyEdges g → e ∈ paddleEdges g).

Definition is_gameTerminated (m : Msg) : bool :=
  match m with gameStateMsg _ => false | gameTerminated _ _ _ => true end.

(** The number of [gameTerminated] messages in a log. *)
Definition count_gameTerminated (l : list Msg) : nat :=
  length (List.filter is_gameTerminated l).

(** What reaches the process: the four socket events and the interval
    timer of a room object. *)
Inductive ServerEvent : Type :=
  | EvJoinRoom (now : Q) (socketId : string) (data : JoinData)
  | EvInput (socketId : string) (dir : Z)
  | EvPlayerReady (now : Q) (socketId : string) (ready : bool)
  | EvDisconnect (now : Q) (socketId : string)
  | EvTimer (time : Q) (r : nat).

Section Events.
Context `{BG : BaseGame}.
Variable FLY_MACHINE_ID : option string.

Definition handle (ev : ServerEvent) (s : Server) : Server :=
  match ev with
  | EvJoinRoom now socketId data => joinRoom FLY_MACHINE_ID now socketId data s
  | EvInput socketId dir => input socketId dir s
  | EvPlayerReady now socketId ready => playerReady now socketId ready s
  | EvDisconnect now socketId => disconnect now socketId s
  | EvTimer time r => tick time r s
  end.

Definition serve (evs : list ServerEvent) (s : Server) : Server :=
  foldl (fun s' ev => handle ev s') s evs.

End Events.

(** The room id and the instance tag that [joinRoom] reads from its
    argument, and its test for a join meant for another instance. *)
Definition join_roomId (data : JoinData) : string :=
  match data with JoinString r => r | JoinObject r _ => r end.

Definition join_instance (data : JoinData) : option string :=
  match data with JoinString _ => None | JoinObject _ i => i end.

Definition wrong_instance (FLY_MACHINE_ID : option string) (data : JoinData) : bool :=
  truthy (join_instance data)
  && negb (bool_decide (join_instance data = Some (instanceId FLY_MACHINE_ID)))
  && isFlyInstance FLY_MACHINE_ID.

(** No dangling reference: the registry and the listeners refer to room
    objects that exist, and no two room ids share a room object. *)
Definition server_ok (s : Server) : Prop :=
  (∀ roomId r, games s !! roomId = Some r → r < length (objects s))
  ∧ (∀ socketId ls l, disconnectListeners s !! socketId = Some ls →
       l ∈ ls → l.2 < length (objects s))
  ∧ (∀ socketId r, gameListeners s !! socketId = Some r → r < length (objects s))
  ∧ (∀ id1 id2 r, games s !! id1 = Some r → games s !! id2 = Some r → id1 = id2).

(** ** Example rooms *)

Definition demo_sim : Simulation :=
  {| sides := 5; rotation := 0; rotationSpeed := 1 # 2; rotationDirection := 1;
     ball := mkBall 0 0 0 0; difficulty := 1; score := 0; lastScore := 0;
     finalTime := 0; timeElapsed := 0; countdownTimer := 3;
     celebrationTimer := 0 |}.

(** A base class that serves the ball from the centre and whose step
    advances nothing. *)
Definition demo_base : BaseGame :=
  {| resetState := fun s =>
       mkSimulation (sides s) 0 (rotationSpeed s) (rotationDirection s)
         (mkBall 0 0 0 0) 1 0 (lastScore s) (finalTime s) 0 3 0;
     super_update := fun _ g => (g, true);
     Paddle_move := fun _ _ p => p;
     Paddle_position0 := 1 # 2;
     Paddle_width0 := 1 # 2;
     initial_sim := demo_sim |}.


(** A base class whose step throws. *)
Definition faulty_base : BaseGame :=
  {| resetState := resetState (BaseGame := demo_base);
     super_update := fun _ g => (g, false);
     Paddle_move := fun _ _ p => p;
     Paddle_position0 := 1 # 2;
     Paddle_width0 := 1 # 2;
     initial_sim := demo_sim |}.

(** Players "a" and "b" on edges 0 and 1 of a pentagon, loop running. *)
Definition demo_room (phase : Phase) (timer : Q) (ready : gset nat) : ServerGame :=
  {| sim := mkSimulation 5 0 (1 # 2) 1 (mkBall 10 20 3 4) 1 5 5 30 (61 # 2) 0 timer;
     paddles := [mkPaddle 0 (1 # 4) (1 # 2) 0; mkPaddle 1 (3 # 4) (1 # 2) 0];
     gameState := phase; restarting := false;
     players := {["a" := 0; "b" := 1]}; readyEdges := ready;
     running := true; interval := true; lastTime := 1000;
     scoreDisplayTimer := 0; out := [] |}.

(** A pentagon whose five edges are taken. *)
Definition full_room : ServerGame :=
  {| sim := demo_sim;
     paddles := map (fun e => mkPaddle e (1 # 2) (1 # 2) 0) [0; 1; 2; 3; 4];
     gameState := PLAYING; restarting := false;
     players := {["a" := 0; "b" := 1; "c" := 2; "d" := 3; "e" := 4]};
     readyEdges := ∅; running := true; interval := true; lastTime := 0;
     scoreDisplayTimer := 0; out := [] |}.

Definition empty_server : Server :=
  {| objects := []; games := ∅; disconnectListeners := ∅;
     gameListeners := ∅; sent := [] |}.

(** A pentagon whose only player is "a", on edge 0. *)
Definition solo_room (phase : Phase) : ServerGame :=
  {| sim := demo_sim; paddles := [mkPaddle 0 (1 # 2) (1 # 2) 0];
     gameState := phase; restarting := false;
     players := {["a" := 0]}; readyEdges := ∅;
     running := true; interval := true; lastTime := 0;
     scoreDisplayTimer := 0; out := [] |}.

(** A process that runs one room, "R", which is that room. *)
Definition solo_server (phase : Phase) : Server :=
  {| objects := [solo_room phase];
     games := {["R" := 0]};
     disconnectListeners := {["a" := [("R", 0)]]};
     gameListeners := {["a" := 0]};
     sent := [] |}.

(** A base class for a two-sided arena. *)
Definition duel_base : BaseGame :=
  {| resetState := resetState (BaseGame := demo_base);
     super_update := fun _ g => (g, true);
     Paddle_move := fun _ _ p => p;
     Paddle_position0 := 1 # 2;
     Paddle_width0 := 1 # 2;
     initial_sim :=
       mkSimulation 2 0 (1 # 2) 1 (mkBall 0 0 0 0) 1 0 0 0 0 3 0 |}.

(** A process whose room "R" is the full pentagon. *)
Definition full_server : Server :=
  {| objects := [full_room];
     games := {["R" := 0]};
     disconnectListeners := ∅;
     gameListeners := ∅;
     sent := [] |}.

(** The process after "a" and "b" have filled the two-sided room "R",
    "z" has been turned away from it, "a" and "b" have left, and "c" has
    joined "R" anew. *)
Definition rejoined_server : Server :=
  serve (BG := duel_base) None
    [EvJoinRoom 0 "a" (JoinString "R"); EvJoinRoom 1 "b" (JoinString "R");
     EvJoinRoom 2 "z" (JoinString "R"); EvDisconnect 3 "a";
     EvDisconnect 4 "b"; EvJoinRoom 5 "c" (JoinString "R")]
    empty_server.

(** * Properties *)

(** ** The ready check *)

Section ReadyCheck.
Context `{BG : BaseGame}.

(** During the celebration the all-ready check does nothing. *)
Lemma checkAllReady_celebrating now g :
  (0 < celebrationTimer (sim g))%Q → checkAllReady now g = g.
Proof.
  intros Hpos. unfold checkAllReady.
  destruct (restarting g); [done|].
  destruct (negb _ || _); [done|].
  destruct (Qlt_le_dec 0 (celebrationTimer (sim g))) as [_|Hle]; [done|].
  exfalso. lra.
Qed.

(** Outside [SCORING] it does nothing either. *)
Lemma checkAllReady_other_phase now g :
  gameState g ≠ SCORING → checkAllReady now g = g.
Proof.
  intros Hne. unfold checkAllReady.
  destruct (restarting g); [done|].
  rewrite bool_decide_eq_false_2 by done. done.
Qed.

Lemma toggleReady_celebrating now socketId isReady g :
  (0 < celebrationTimer (sim g))%Q →
  toggleReady now socketId isReady g =
    match players g !! socketId with
    | None => g
    | Some e => recorded e isReady g
    end.
Proof.
  intros Hpos. unfold toggleReady.
  destruct (players g !! socketId) as [e|]; [|done].
  rewrite checkAllReady_celebrating; by destruct isReady.
Qed.

Lemma allReady_true g :
  (∀ socketId e, players g !! socketId = Some e → e ∈ readyEdges g) →
  allReady g = true.
Proof.
  intros Hall. unfold allReady. apply forallb_forall.
  intros idx Hin. apply bool_decide_eq_true_2.
  apply in_map_iff in Hin as [[socketId e] [<- Hin]].
  apply list_elem_of_In, elem_of_map_to_list in Hin. by eapply Hall.
Qed.

(** C1. In phase SCORING with a positive celebration timer, no sequence of
    toggleReady calls, by any callers and with any values, leaves SCORING:
    after every such sequence the phase is still SCORING (so it is not
    COUNTDOWN) and the timer, the simulation, the paddles and the players
    are what they were.  Hence a sequence of toggles that takes a room
    from SCORING to COUNTDOWN started with the timer at zero (not
    positive). *)
Theorem toggleReady_cannot_restart_during_celebration
    (calls : list (Q * string * bool)) (g : ServerGame) :
  gameState g = SCORING →
  ((0 < celebrationTimer (sim g))%Q →
     gameState (toggles calls g) = SCORING
     ∧ gameState (toggles calls g) ≠ COUNTDOWN
     ∧ sim (toggles calls g) = sim g
     ∧ paddles (toggles calls g) = paddles g
     ∧ players (toggles calls g) = players g)
  ∧ (gameState (toggles calls g) = COUNTDOWN →
       (celebrationTimer (sim g) <= 0)%Q).
Proof.
  assert (∀ g, gameState g = SCORING → (0 < celebrationTimer (sim g))%Q →
            gameState (toggles calls g) = SCORING
            ∧ sim (toggles calls g) = sim g
            ∧ paddles (toggles calls g) = paddles g
            ∧ players (toggles calls g) = players g) as Hstay.
  { clear g. induction calls as [|[[now socketId] isReady] calls IH];
      intros g Hphase Hpos; [done|].
    unfold toggles in *. simpl.
    rewrite toggleReady_celebrating by done.
    destruct (players g !! socketId) as [e|]; [|by apply IH].
    destruct (IH (recorded e isReady g)) as (H1 & H2 & H3 & H4); [done | done |].
    by repeat split. }
  intros Hphase. split.
  - intros Hpos. destruct (Hstay g Hphase Hpos) as (H1 & H2 & H3 & H4).
    rewrite H1. by repeat split.
  - intros Hcount.
    destruct (Qlt_le_dec 0 (celebrationTimer (sim g))) as [Hpos|Hle]; [|done].
    destruct (Hstay g Hphase Hpos) as (H1 & _). congruence.
Qed.

(** C2. In phase SCORING with at least one connected player, a celebration
    timer equal to zero and every occupied edge in the ready-edge set, the
    next evaluation of the all-ready condition moves the phase to
    COUNTDOWN, clears the ready-edge set, resets the simulation (the ball)
    through the base class and puts every paddle back to the middle of its
    edge with no pending move; the snapshot it broadcasts shows COUNTDOWN. *)
Theorem checkAllReady_restarts_when_all_ready (now : Q) (g : ServerGame) :
  gameState g = SCORING →
  players g ≠ ∅ →
  (celebrationTimer (sim g) == 0)%Q →
  restarting g = false →
  (∀ socketId e, players g !! socketId = Some e → e ∈ readyEdges g) →
  let g' := checkAllReady now g in
  gameState g' = COUNTDOWN
  ∧ readyEdges g' = ∅
  ∧ sim g' = resetState (sim g)
  ∧ paddles g' =
      map (fun p => mkPaddle (edgeIndex p) (1 # 2) (width p) 0%Z) (paddles g)
  ∧ players g' = players g
  ∧ ∃ s, out g' = out g ++ [gameStateMsg s]
         ∧ s_gameState s = COUNTDOWN ∧ s_readyEdges s = ∅
         ∧ s_ball s = ball (resetState (sim g)).
Proof.
  intros Hphase Hplayers Htimer Hrest Hall g'. subst g'.
  unfold checkAllReady. rewrite Hrest.
  rewrite (bool_decide_eq_true_2 _ Hphase). simpl.
  rewrite bool_decide_eq_false_2
    by (intros Hsize; by apply map_size_empty_iff in Hsize).
  destruct (Qlt_le_dec 0 (celebrationTimer (sim g))) as [Hlt|_]; [exfalso; lra|].
  rewrite allReady_true by done.
  unfold resetGame. rewrite Hrest. simpl.
  repeat split; try done.
  eexists. split; [reflexivity|]. done.
Qed.

End ReadyCheck.

(** ** Toggles and input that the room accepts *)

Section Accepted.
Context `{BG : BaseGame}.

(** C3, amended. In phase SCORING with a positive celebration timer, a
    toggleReady call of a connected player is recorded but cannot restart
    the match: the player's edge is added to (or deleted from) the
    ready-edge set and one snapshot is broadcast, while the phase, the
    simulation and its timer, the paddles, the players and the loop state
    stay as they were. *)
Theorem toggleReady_during_celebration_only_records
    (now : Q) (socketId : string) (isReady : bool) (e : nat) (g : ServerGame) :
  gameState g = SCORING →
  (0 < celebrationTimer (sim g))%Q →
  players g !! socketId = Some e →
  let g' := toggleReady now socketId isReady g in
  readyEdges g' = (if isReady then readyEdges g ∪ {[e]} else readyEdges g ∖ {[e]})
  ∧ gameState g' = SCORING
  ∧ sim g' = sim g ∧ paddles g' = paddles g ∧ players g' = players g
  ∧ running g' = running g ∧ interval g' = interval g ∧ lastTime g' = lastTime g
  ∧ ∃ s, out g' = out g ++ [gameStateMsg s] ∧ s_gameState s = SCORING.
Proof.
  intros Hphase Hpos Hsock g'. subst g'.
  rewrite toggleReady_celebrating, Hsock by done.
  unfold recorded. simpl. repeat split; try done.
  eexists. split; [reflexivity|]. simpl. by destruct isReady.
Qed.

Lemma steer_edges index dir ps : map edgeIndex (steer index dir ps) = map edgeIndex ps.
Proof.
  induction ps as [|p ps IH]; [done|]. simpl.
  case_bool_decide; simpl; [done | by rewrite IH].
Qed.

Lemma steer_lookup index dir ps i p :
  ps !! i = Some p →
  steer index dir ps !! i = Some p
  ∨ (edgeIndex p = index ∧ steer index dir ps !! i = Some (set_moveDirection dir p)).
Proof.
  revert i. induction ps as [|q ps IH]; intros i Hi; [done|]. simpl.
  case_bool_decide as Hq.
  - destruct i as [|i]; [|by left]. simpl in Hi. injection Hi as ->. by right.
  - destruct i as [|i]; [by left|]. simpl in *. by apply IH.
Qed.

Lemma steer_hits index dir ps :
  index ∈ map edgeIndex ps →
  ∃ p, p ∈ steer index dir ps ∧ edgeIndex p = index ∧ moveDirection p = dir.
Proof.
  induction ps as [|q ps IH]; simpl; [intros Hin; by apply elem_of_nil in Hin|].
  intros Hin. case_bool_decide as Hq.
  - exists (set_moveDirection dir q). split; [by left|done].
  - apply elem_of_cons in Hin as [Hin|Hin]; [congruence|].
    destruct (IH Hin) as (p & Hp & He & Hd). exists p. split; [by right|done].
Qed.

Lemma steer_first index dir ps i p :
  ps !! i = Some p →
  edgeIndex p = index →
  (∀ j q, j < i → ps !! j = Some q → edgeIndex q ≠ index) →
  steer index dir ps !! i = Some (set_moveDirection dir p).
Proof.
  revert i. induction ps as [|q ps IH]; intros i Hi Hp Hfirst; [done|]. simpl.
  destruct i as [|i]; simpl in Hi.
  - injection Hi as ->. by rewrite bool_decide_eq_true_2.
  - rewrite bool_decide_eq_false_2 by (apply (Hfirst 0 q); [lia|done]).
    simpl. apply IH; [done..|]. intros j q' Hj Hq'.
    apply (Hfirst (S j) q'); [lia|done].
Qed.

(** C4, amended. The only phase in which paddle input is refused is
    SCORING: a handleInput call that arrives in phase SCORING, or from a
    connection id that is not in the players map, leaves the room as it
    is.  In the other phases (COUNTDOWN, PLAYING, TERMINATED) the call of
    a player on edge [index] sets the move direction of that player's
    paddle, the first paddle of that edge, to the direction sent, keeping
    its edge, position and width, and changes nothing else: every other
    paddle, the number of paddles, the players, the ready edges, the
    phase, the simulation, the loop state and the log of emissions are
    what they were. *)
Theorem handleInput_refused_only_in_SCORING
    (socketId : string) (dir : Z) (g : ServerGame) :
  (gameState g = SCORING ∨ players g !! socketId = None →
     handleInput socketId dir g = g)
  ∧ (∀ index, gameState g ≠ SCORING → players g !! socketId = Some index →
       let g' := handleInput socketId dir g in
       (∀ i p, paddles g !! i = Some p →
          (edgeIndex p = index →
           (∀ j q, j < i → paddles g !! j = Some q → edgeIndex q ≠ index) →
           paddles g' !! i
           = Some (mkPaddle (edgeIndex p) (position p) (width p) dir))
          ∧ (edgeIndex p ≠ index → paddles g' !! i = Some p)
          ∧ (paddles g' !! i = Some p
             ∨ paddles g' !! i
               = Some (mkPaddle (edgeIndex p) (position p) (width p) dir)))
       ∧ (index ∈ paddleEdges g →
          ∃ p, p ∈ paddles g' ∧ edgeIndex p = index ∧ moveDirection p = dir)
       ∧ length (paddles g') = length (paddles g)
       ∧ sim g' = sim g ∧ gameState g' = gameState g
       ∧ restarting g' = restarting g
       ∧ players g' = players g ∧ readyEdges g' = readyEdges g
       ∧ running g' = running g ∧ interval g' = interval g
       ∧ lastTime g' = lastTime g
       ∧ scoreDisplayTimer g' = scoreDisplayTimer g
       ∧ out g' = out g).
Proof.
  unfold handleInput. split.
  - intros [Hphase|Hnone].
    + by rewrite bool_decide_eq_true_2.
    + rewrite Hnone. by case_bool_decide.
  - intros index Hphase Hsock. rewrite bool_decide_eq_false_2, Hsock by done.
    simpl. split; [|split; [|split]].
    + intros i p Hp. split; [|split].
      * intros Hedge Hfirst. by apply steer_first.
      * intros Hne.
        by destruct (steer_lookup index dir (paddles g) i p Hp) as [|[? _]].
      * destruct (steer_lookup index dir (paddles g) i p Hp) as [|[_ ?]];
          [by left|by right].
    + by apply steer_hits.
    + rewrite <- !(length_map edgeIndex). by rewrite steer_edges.
    + by repeat split.
Qed.

End Accepted.

(** ** Joining and leaving a room *)

Section Membership.
Context `{BG : BaseGame}.

(** The scan stops at the first index that is free or reaches [n]. *)
Lemma scan_spec (occ : gset nat) (n fuel e : nat) :
  n - e ≤ fuel →
  let r := scan occ n fuel e in
  e ≤ r ∧ (∀ k, e ≤ k < r → k ∈ occ) ∧ (r ∉ occ ∨ n ≤ r) ∧ (e ≤ n → r ≤ n).
Proof.
  revert e. induction fuel as [|fuel IH]; intros e Hfuel; simpl.
  - repeat split; [lia | lia | right; lia | lia].
  - destruct (bool_decide (e ∈ occ)) eqn:Hocc; simpl.
    + destruct (e <? n) eqn:Hlt.
      * apply Nat.ltb_lt in Hlt. apply bool_decide_eq_true in Hocc.
        destruct (IH (S e)) as (H1 & H2 & H3 & H4); [lia|].
        repeat split; [lia | | done | lia].
        intros k Hk. destruct (decide (k = e)) as [->|]; [done|].
        apply H2. lia.
      * apply Nat.ltb_ge in Hlt.
        repeat split; [lia | lia | right; lia | lia].
    + apply bool_decide_eq_false in Hocc.
      repeat split; [lia | lia | by left | lia].
Qed.

(** A set that holds every index below [n] has at least [n] elements. *)
Lemma size_ge_of_initial_segment (occ : gset nat) (n : nat) :
  (∀ k, k < n → k ∈ occ) → n ≤ size occ.
Proof.
  intros Hall.
  rewrite <- (size_set_seq (C:=gset nat) 0 n).
  apply subseteq_size. intros k Hk. apply elem_of_set_seq in Hk.
  apply Hall. lia.
Qed.

Lemma size_occupiedIndices_le g : size (occupiedIndices g) ≤ length (paddles g).
Proof.
  unfold occupiedIndices. rewrite <- (length_map edgeIndex).
  generalize (map edgeIndex (paddles g)). intros l.
  induction l as [|x l IH].
  - by rewrite list_to_set_nil, size_empty.
  - rewrite list_to_set_cons, size_union_alt, size_singleton.
    assert (size (list_to_set l ∖ {[x]} : gset nat)
            ≤ size (list_to_set l : gset nat)) as Hsub.
    { apply subseteq_size. apply subseteq_difference_l. done. }
    simpl. lia.
Qed.

Lemma size_occupiedIndices_NoDup g :
  NoDup (paddleEdges g) → size (occupiedIndices g) = length (paddles g).
Proof.
  unfold occupiedIndices, paddleEdges. intros Hnd.
  rewrite size_list_to_set by done. apply length_map.
Qed.

Lemma elem_of_occupiedIndices g e : e ∈ occupiedIndices g ↔ e ∈ paddleEdges g.
Proof. unfold occupiedIndices, paddleEdges. apply elem_of_list_to_set. Qed.

(** C5. addPlayer gives the joining connection the lowest edge index that
    no existing paddle occupies: in a room with one paddle per edge where
    fewer edges are occupied than the polygon has sides, it returns that
    index [e] (below the side count), maps the connection to [e], appends a
    paddle for [e] and leaves the ready edges alone.  In every room in
    which the number of occupied edges equals the side count it returns -1
    and the room is left exactly as it was. *)
Theorem addPlayer_assigns_lowest_free_edge (socketId : string) (g : ServerGame) :
  (size (occupiedIndices g) = sides (sim g) → addPlayer socketId g = ((-1)%Z, g))
  ∧ (NoDup (paddleEdges g) →
     size (occupiedIndices g) < sides (sim g) →
     ∃ e, (e ∉ occupiedIndices g)
          ∧ (∀ e', e' < e → e' ∈ occupiedIndices g)
          ∧ e < sides (sim g)
          ∧ (addPlayer socketId g).1 = Z.of_nat e
          ∧ players (addPlayer socketId g).2 = <[socketId := e]> (players g)
          ∧ paddles (addPlayer socketId g).2 = paddles g ++ [new_Paddle e]
          ∧ readyEdges (addPlayer socketId g).2 = readyEdges g).
Proof.
  unfold addPlayer. split.
  - intros Hfull. pose proof (size_occupiedIndices_le g) as Hle.
    destruct (sides (sim g) <=? length (paddles g)) eqn:Hcmp; [done|].
    apply Nat.leb_gt in Hcmp. lia.
  - intros Hnd Hroom. rewrite size_occupiedIndices_NoDup in Hroom by done.
    destruct (sides (sim g) <=? length (paddles g)) eqn:Hcmp;
      [apply Nat.leb_le in Hcmp; lia|].
    destruct (scan_spec (occupiedIndices g) (sides (sim g)) (sides (sim g)) 0)
      as (_ & Hbelow & Hstop & Hmax); [lia|].
    set (e := scan (occupiedIndices g) (sides (sim g)) (sides (sim g)) 0) in *.
    assert (e < sides (sim g)) as He.
    { destruct (decide (e < sides (sim g))) as [|Hge]; [done|]. exfalso.
      assert (sides (sim g) ≤ size (occupiedIndices g)) as Hsz.
      { apply size_ge_of_initial_segment. intros k Hk. apply Hbelow. lia. }
      rewrite size_occupiedIndices_NoDup in Hsz by done. lia. }
    destruct (sides (sim g) <=? e) eqn:Hcmp2; [apply Nat.leb_le in Hcmp2; lia|].
    exists e. simpl. repeat split; try done.
    + destruct Hstop as [|]; [done|lia].
    + intros e' He'. apply Hbelow. lia.
Qed.

End Membership.

(** ** The invariant of the room *)

Section Invariant.
Context `{BG : BaseGame}.

(** The invariant reads only the paddles' edges, the players and the
    ready edges; the latter may shrink. *)
Lemma room_invariant_ext g g' :
  paddleEdges g' = paddleEdges g →
  players g' = players g →
  readyEdges g' ⊆ readyEdges g →
  room_invariant g → room_invariant g'.
Proof.
  unfold room_invariant, occupied. intros Hedges Hplayers Hsub.
  rewrite Hedges, Hplayers. intros (Hnd & Hocc & Hready).
  split; [done|]. split; [done|]. intros e He. apply Hready, Hsub, He.
Qed.

Lemma players_injective_ext g g' :
  players g' = players g → players_injective g → players_injective g'.
Proof. unfold players_injective. by intros ->. Qed.

Lemma resetGame_edges now g :
  paddleEdges (resetGame now g) = paddleEdges g
  ∧ players (resetGame now g) = players g
  ∧ readyEdges (resetGame now g) ⊆ readyEdges g.
Proof.
  unfold resetGame, paddleEdges. destruct (restarting g); [done|]. simpl.
  split; [|split; [done|set_solver]].
  rewrite map_map. simpl. done.
Qed.

Lemma checkAllReady_edges now g :
  paddleEdges (checkAllReady now g) = paddleEdges g
  ∧ players (checkAllReady now g) = players g
  ∧ readyEdges (checkAllReady now g) ⊆ readyEdges g.
Proof.
  unfold checkAllReady.
  destruct (restarting g); [done|].
  destruct (negb _ || _); [done|].
  destruct (Qlt_le_dec _ _); [done|].
  destruct (allReady g); [apply resetGame_edges|done].
Qed.

Lemma resetGame_preserves_invariant now g :
  room_invariant g → room_invariant (resetGame now g).
Proof.
  destruct (resetGame_edges now g) as (H1 & H2 & H3).
  by apply room_invariant_ext.
Qed.

Lemma checkAllReady_preserves_invariant now g :
  room_invariant g → room_invariant (checkAllReady now g).
Proof.
  destruct (checkAllReady_edges now g) as (H1 & H2 & H3).
  by apply room_invariant_ext.
Qed.

Lemma toggleReady_preserves_invariant now socketId isReady g :
  room_invariant g → room_invariant (toggleReady now socketId isReady g).
Proof.
  intros Hinv. unfold toggleReady.
  destruct (players g !! socketId) as [e|] eqn:Hsock; [|done].
  apply checkAllReady_preserves_invariant.
  destruct Hinv as (Hnd & Hocc & Hready).
  assert (e ∈ paddleEdges g) as He by (apply Hocc; by exists socketId).
  destruct isReady.
  - split; [done|]. split; [done|]. simpl. intros e' He'.
    apply elem_of_union in He' as [He'|He']; [by apply Hready|].
    apply elem_of_singleton in He'. by subst.
  - split; [done|]. split; [done|]. simpl. intros e' He'.
    apply elem_of_difference in He' as [He' _]. by apply Hready.
Qed.

Lemma filter_edges e ps :
  map edgeIndex (filter (fun p => edgeIndex p ≠ e) ps)
  = filter (fun x => x ≠ e) (map edgeIndex ps).
Proof.
  induction ps as [|p ps IH]; [done|]. simpl.
  rewrite !filter_cons. destruct (decide (edgeIndex p ≠ e)); simpl; by rewrite IH.
Qed.

(** Leaving keeps the invariant of a room in which no two players share
    an edge. *)
Lemma removePlayer_preserves_invariant now socketId g :
  room_invariant g → players_injective g →
  room_invariant (removePlayer now socketId g).
Proof.
  intros (Hnd & Hocc & Hready) Hinj. unfold removePlayer.
  destruct (players g !! socketId) as [e|] eqn:Hsock; [|done].
  set (g3 := set_paddles _ _).
  assert (room_invariant g3) as Hinv3.
  { subst g3. unfold room_invariant, paddleEdges, occupied. simpl.
    rewrite filter_edges. split; [by apply NoDup_filter|]. split.
    - intros e'. rewrite list_elem_of_filter. split.
      + intros [Hne He']. apply Hocc in He' as [s Hs]. exists s.
        apply lookup_delete_Some. split; [|done]. intros <-. congruence.
      + intros [s Hs]. apply lookup_delete_Some in Hs as [Hne Hs]. split.
        * intros ->. apply Hne. by eapply Hinj.
        * apply Hocc. by exists s.
    - intros e' He'. apply elem_of_difference in He' as [He' Hne].
      apply list_elem_of_filter. split; [set_solver|]. by apply Hready. }
  assert (room_invariant (checkAllReady now (broadcastState g3))) as Hinv5.
  { apply checkAllReady_preserves_invariant.
    by apply (room_invariant_ext g3). }
  destruct (running _ && _); [|done].
  by apply (room_invariant_ext (checkAllReady now (broadcastState g3))).
Qed.

(** Joining keeps the invariant when the connection is not yet a player
    of the room. *)
Lemma addPlayer_preserves_invariant socketId g :
  room_invariant g → players g !! socketId = None →
  room_invariant (addPlayer socketId g).2.
Proof.
  intros (Hnd & Hocc & Hready) Hfresh. unfold addPlayer.
  destruct (sides (sim g) <=? length (paddles g)); [done|].
  destruct (scan_spec (occupiedIndices g) (sides (sim g)) (sides (sim g)) 0)
    as (_ & _ & Hstop & _); [lia|].
  set (e := scan _ _ _ _) in *.
  destruct (sides (sim g) <=? e) eqn:Hcmp; [done|].
  apply Nat.leb_gt in Hcmp. destruct Hstop as [Hfree|]; [|lia].
  rewrite elem_of_occupiedIndices in Hfree.
  unfold room_invariant, paddleEdges, occupied in *. simpl.
  rewrite map_app. simpl. split; [|split].
  - apply NoDup_app. split; [done|]. split; [|apply NoDup_singleton].
    intros x Hx Hx'. apply list_elem_of_singleton in Hx'. by subst.
  - intros e'. rewrite elem_of_app, list_elem_of_singleton. split.
    + intros [He'| ->].
      * apply Hocc in He' as [s Hs]. exists s.
        rewrite lookup_insert_ne; [done|]. intros <-. congruence.
      * exists socketId. apply lookup_insert_eq.
    + intros [s Hs]. apply lookup_insert_Some in Hs as [[_ <-]|[_ Hs]];
        [by right|]. left. apply Hocc. by exists s.
  - intros e' He'. apply elem_of_app. left. by apply Hready.
Qed.

Lemma removePlayer_players now socketId g :
  players (removePlayer now socketId g) = delete socketId (players g).
Proof.
  unfold removePlayer.
  destruct (players g !! socketId) as [e|] eqn:Hsock;
    [|by rewrite delete_id].
  set (g4 := broadcastState _).
  destruct (checkAllReady_edges now g4) as (_ & Hp & _).
  destruct (running _ && _); simpl; by rewrite Hp.
Qed.

Lemma removePlayer_absent now socketId g :
  players g !! socketId = None → removePlayer now socketId g = g.
Proof. intros Hnone. unfold removePlayer. by rewrite Hnone. Qed.

(** Whoever calls, the paddles stay on pairwise distinct edges, and no two
    players come to share an edge. *)
Lemma addPlayer_free_edge socketId g :
  (addPlayer socketId g).2 = g
  ∨ ∃ e, (e ∉ paddleEdges g)
         ∧ paddleEdges (addPlayer socketId g).2 = paddleEdges g ++ [e]
         ∧ players (addPlayer socketId g).2 = <[socketId := e]> (players g).
Proof.
  unfold addPlayer.
  destruct (sides (sim g) <=? length (paddles g)); [by left|].
  destruct (scan_spec (occupiedIndices g) (sides (sim g)) (sides (sim g)) 0)
    as (_ & _ & Hstop & _); [lia|].
  set (e := scan _ _ _ _) in *.
  destruct (sides (sim g) <=? e) eqn:Hcmp; [by left|].
  apply Nat.leb_gt in Hcmp. destruct Hstop as [Hfree|]; [|lia].
  rewrite elem_of_occupiedIndices in Hfree.
  right. exists e. split; [done|]. unfold paddleEdges. simpl.
  by rewrite map_app.
Qed.

Lemma removePlayer_edges now socketId g :
  paddleEdges (removePlayer now socketId g) =
    match players g !! socketId with
    | None => paddleEdges g
    | Some e => filter (fun x => x ≠ e) (paddleEdges g)
    end.
Proof.
  unfold removePlayer. destruct (players g !! socketId) as [e|]; [|done].
  set (g4 := broadcastState _).
  destruct (checkAllReady_edges now g4) as (Hedges & _ & _).
  assert (paddleEdges g4 = filter (fun x => x ≠ e) (paddleEdges g)) as <-
    by apply filter_edges.
  by destruct (running _ && _).
Qed.

Lemma toggleReady_edges now socketId isReady g :
  paddleEdges (toggleReady now socketId isReady g) = paddleEdges g
  ∧ players (toggleReady now socketId isReady g) = players g.
Proof.
  unfold toggleReady. destruct (players g !! socketId) as [e|]; [|done].
  set (g2 := broadcastState _).
  destruct (checkAllReady_edges now g2) as (Hedges & Hplayers & _).
  rewrite Hedges, Hplayers. by destruct isReady.
Qed.

Lemma handleInput_edges socketId dir g :
  paddleEdges (handleInput socketId dir g) = paddleEdges g
  ∧ players (handleInput socketId dir g) = players g.
Proof.
  unfold handleInput. case_bool_decide; [done|].
  destruct (players g !! socketId) as [index|]; [|done].
  unfold paddleEdges. simpl. by rewrite steer_edges.
Qed.

Lemma calls_keep_edges_distinct op g :
  (∀ time, op ≠ OpTimer time) →
  NoDup (paddleEdges g) → NoDup (paddleEdges (apply_op op g)).
Proof.
  intros Hcall Hnd.
  destruct op as [socketId|now socketId|now socketId isReady|socketId dir|time];
    simpl.
  - destruct (addPlayer_free_edge socketId g) as [->|(e & Hfree & -> & _)];
      [done|].
    apply NoDup_app. split; [done|]. split; [|apply NoDup_singleton].
    intros x Hx Hx'. apply list_elem_of_singleton in Hx'. by subst.
  - rewrite removePlayer_edges.
    destruct (players g !! socketId); [by apply NoDup_filter|done].
  - by destruct (toggleReady_edges now socketId isReady g) as [-> _].
  - by destruct (handleInput_edges socketId dir g) as [-> _].
  - by destruct (Hcall time).
Qed.

Lemma calls_keep_players_injective op g :
  (∀ time, op ≠ OpTimer time) →
  room_invariant g → players_injective g → players_injective (apply_op op g).
Proof.
  intros Hcall (_ & Hocc & _) Hinj.
  destruct op as [socketId|now socketId|now socketId isReady|socketId dir|time];
    simpl.
  - destruct (addPlayer_free_edge socketId g) as [->|(e & Hfree & _ & Hpl)];
      [done|].
    assert (∀ s, players g !! s ≠ Some e) as Hnew.
    { intros s Hs. apply Hfree, Hocc. by exists s. }
    intros s1 s2 e'. rewrite Hpl. rewrite !lookup_insert_Some.
    intros [[<- <-]|[Hne1 H1]] [[<- Heq]|[Hne2 H2]]; try done.
    + by destruct (Hnew s2).
    + subst e'. by destruct (Hnew s1).
    + by eapply Hinj.
  - intros s1 s2 e'. rewrite removePlayer_players, !lookup_delete_Some.
    intros [_ H1] [_ H2]. by eapply Hinj.
  - destruct (toggleReady_edges now socketId isReady g) as [_ Hpl].
    by apply (players_injective_ext g).
  - destruct (handleInput_edges socketId dir g) as [_ Hpl].
    by apply (players_injective_ext g).
  - by destruct (Hcall time).
Qed.

End Invariant.

(** C10 on the code: a connection that joins the room it is already in.
    The room created for socket "a" satisfies the invariant after the
    first addPlayer; the second addPlayer of "a" appends a paddle for
    edge 1 and remaps "a" from edge 0 to edge 1, so the paddle of edge 0
    belongs to no player and the invariant is lost.  This is the room the
    server holds after socket "a" has sent joinRoom for "R" twice. *)
Theorem addPlayer_again_orphans_paddle :
  let g0 := start 0 (new_ServerGame (BG:=demo_base)) in
  let g1 := (addPlayer (BG:=demo_base) "a" g0).2 in
  let g2 := (addPlayer (BG:=demo_base) "a" g1).2 in
  room_invariant g0 ∧ room_invariant g1
  ∧ players g1 = {["a" := 0]}
  ∧ (addPlayer (BG:=demo_base) "a" g1).1 = 1%Z
  ∧ paddleEdges g2 = [0; 1]
  ∧ players g2 = {["a" := 1]}
  ∧ ¬ room_invariant g2
  ∧ objects (joinRoom (BG:=demo_base) None 0 "a" (JoinString "R")
              (joinRoom (BG:=demo_base) None 0 "a" (JoinString "R") empty_server))
    = [g2].
Proof.
  intros g0 g1 g2.
  assert (room_invariant g0) as H0.
  { subst g0. unfold room_invariant, paddleEdges, occupied. simpl.
    split; [constructor|]. split.
    - intros e. split; [intros He; inversion He|].
      intros [s Hs]. by rewrite lookup_empty in Hs.
    - intros e He. set_solver. }
  assert (players g2 = {["a" := 1]}) as Hp2 by (vm_compute; reflexivity).
  split; [done|]. split; [by apply (addPlayer_preserves_invariant (BG:=demo_base))|].
  split; [vm_compute; reflexivity|]. split; [reflexivity|].
  split; [reflexivity|]. split; [done|].
  split; [|vm_compute; reflexivity].
  intros (_ & Hocc & _).
  destruct (Hocc 0) as [[s Hs] _]; [left|].
  rewrite Hp2 in Hs. apply lookup_singleton_Some in Hs as [_ Hs]. lia.
Qed.

(** ** Termination of a match *)

Section Termination.
Context `{BG : BaseGame}.

(** In a terminated room every call only broadcasts snapshots, and the
    timer of the stopped loop does nothing. *)
Lemma terminated_step op g :
  terminated g →
  terminated (apply_op op g)
  ∧ ∃ l, out (apply_op op g) = out g ++ l ∧ Forall is_gameState l.
Proof.
  intros (Hphase & Hrun & Hint).
  assert (gameState g ≠ SCORING) as Hne by (rewrite Hphase; done).
  assert (∀ g' : ServerGame, g' = g →
            terminated g' ∧ ∃ l, out g' = out g ++ l ∧ Forall is_gameState l)
    as Hsame.
  { intros g' ->. split; [done|]. exists []. by rewrite app_nil_r. }
  destruct op as [socketId|now socketId|now socketId isReady|socketId dir|time];
    simpl.
  - unfold addPlayer.
    destruct (sides (sim g) <=? length (paddles g)); [by apply Hsame|].
    destruct (sides (sim g) <=? scan _ _ _ _); [by apply Hsame|].
    simpl. split; [done|]. eexists [_]. split; [done|]. by repeat constructor.
  - unfold removePlayer.
    destruct (players g !! socketId) as [e|]; [|by apply Hsame].
    rewrite checkAllReady_other_phase by done. simpl. rewrite Hrun. simpl.
    split; [done|]. eexists [_]. split; [done|]. by repeat constructor.
  - unfold toggleReady.
    destruct (players g !! socketId) as [e|]; [|by apply Hsame].
    destruct isReady; rewrite checkAllReady_other_phase by done;
      (split; [done|]); eexists [_]; (split; [done|]); by repeat constructor.
  - unfold handleInput. rewrite bool_decide_eq_false_2 by done.
    destruct (players g !! socketId) as [e|]; [|by apply Hsame].
    simpl. split; [done|]. exists []. by rewrite app_nil_r.
  - unfold timer_fires. rewrite Hint. by apply Hsame.
Qed.

Lemma terminated_run ops g :
  terminated g →
  terminated (run ops g)
  ∧ ∃ l, out (run ops g) = out g ++ l ∧ Forall is_gameState l.
Proof.
  revert g. induction ops as [|op ops IH]; intros g Hterm.
  - split; [done|]. exists []. by rewrite app_nil_r.
  - destruct (terminated_step op g Hterm) as (Hterm1 & l1 & Hout1 & Hl1).
    destruct (IH _ Hterm1) as (Hterm2 & l2 & Hout2 & Hl2).
    unfold run in *. simpl. split; [done|].
    exists (l1 ++ l2). rewrite Hout2, Hout1, <- app_assoc.
    split; [done|]. by apply Forall_app.
Qed.

(** C6, amended. When a connected player is removed while the room is
    running in phase PLAYING, the call broadcasts one snapshot, moves the
    room to TERMINATED, stops the tick loop and emits exactly one
    gameTerminated message, which carries the reason, the score as last
    score and the elapsed time rounded down as final time.  From then on,
    whatever calls and timer events follow, the room stays TERMINATED, its
    timer does nothing (no tick, hence no broadcast of a tick) and no
    second gameTerminated is emitted: all that is emitted afterwards are
    the snapshots that addPlayer, removePlayer and toggleReady broadcast. *)
Theorem removePlayer_while_PLAYING_terminates
    (now : Q) (socketId : string) (e : nat) (g : ServerGame) :
  players g !! socketId = Some e →
  running g = true →
  gameState g = PLAYING →
  let g' := removePlayer now socketId g in
  terminated g'
  ∧ (∃ s, out g' = out g ++
            [gameStateMsg s;
             gameTerminated "A player left the game" (score (sim g))
               (Qfloor (timeElapsed (sim g)))])
  ∧ ∀ ops, terminated (run ops g')
           ∧ (∀ time, timer_fires time (run ops g') = run ops g')
           ∧ ∃ l, out (run ops g') = out g' ++ l ∧ Forall is_gameState l.
Proof.
  intros Hsock Hrun Hphase g'.
  assert (terminated g'
          ∧ ∃ s, out g' = out g ++
                   [gameStateMsg s;
                    gameTerminated "A player left the game" (score (sim g))
                      (Qfloor (timeElapsed (sim g)))]) as [Hterm Hout].
  { subst g'. unfold removePlayer. rewrite Hsock.
    rewrite checkAllReady_other_phase by (simpl; rewrite Hphase; done).
    simpl. rewrite Hrun, (bool_decide_eq_true_2 _ Hphase). simpl.
    split; [done|]. eexists. by rewrite <- app_assoc. }
  split; [done|]. split; [done|]. intros ops.
  destruct (terminated_run ops g' Hterm) as (Hterm' & Hl).
  split; [done|]. split; [|done].
  intros time. unfold timer_fires. by destruct Hterm' as (_ & _ & ->).
Qed.


(** The clamp alone: whatever the clock readings, the delta is at most 0.1. *)
Lemma loop_dt_at_most_a_tenth (time : Q) (g : ServerGame) :
  (loop_dt time g <= 1 # 10)%Q.
Proof.
  unfold loop_dt.
  destruct (Qlt_le_dec (1 # 10) ((time - lastTime g) / 1000)); [apply Qle_refl|done].
Qed.

(** The calls that read the clock store that reading, or nothing, in
    lastTime: a stored reading is never ahead of the clock. *)
Lemma lastTime_is_a_past_reading (now : Q) (g : ServerGame) :
  (lastTime g <= now)%Q →
  (lastTime (start now g) <= now)%Q
  ∧ (lastTime (resetGame now g) <= now)%Q
  ∧ (lastTime (checkAllReady now g) <= now)%Q
  ∧ (∀ socketId isReady, lastTime (toggleReady now socketId isReady g) <= now)%Q
  ∧ (∀ socketId, lastTime (removePlayer now socketId g) <= now)%Q.
Proof.
  intros Hpast.
  assert (∀ g0, (lastTime g0 <= now)%Q → (lastTime (resetGame now g0) <= now)%Q)
    as Hreset.
  { intros g0 H0. unfold resetGame. destruct (restarting g0); [done|].
    simpl. apply Qle_refl. }
  assert (∀ g0, (lastTime g0 <= now)%Q → (lastTime (checkAllReady now g0) <= now)%Q)
    as Hcheck.
  { intros g0 H0. unfold checkAllReady.
    destruct (restarting g0); [done|]. destruct (negb _ || _); [done|].
    destruct (Qlt_le_dec _ _); [done|]. destruct (allReady g0); [|done].
    by apply Hreset. }
  split; [simpl; apply Qle_refl|]. split; [by apply Hreset|].
  split; [by apply Hcheck|]. split.
  - intros socketId isReady. unfold toggleReady.
    destruct (players g !! socketId); [|done].
    apply Hcheck. by destruct isReady.
  - intros socketId. unfold removePlayer.
    destruct (players g !! socketId); [|done].
    set (g4 := broadcastState _).
    assert (lastTime (checkAllReady now g4) <= now)%Q as H5 by by apply Hcheck.
    by destruct (running _ && _).
Qed.

End Termination.

(** ** Rooms in the registry *)

Section Registry.
Context `{BG : BaseGame}.

(** A listener of the leaving socket keeps a destroyed room destroyed. *)
Lemma disconnect_listener_keeps_destroyed now socketId l roomId r s :
  destroyed roomId r s → destroyed roomId r (disconnect_listener now socketId l s).
Proof.
  intros (Hgone & g & Hobj & Hempty & Hrun & Hint).
  unfold disconnect_listener.
  destruct (objects s !! l.2) as [g0|] eqn:Hobj0; [|by split; [|exists g]].
  assert (l.2 < length (objects s)) as Hlen by by eapply lookup_lt_Some.
  destruct (decide (l.2 = r)) as [Heq|Hne].
  - rewrite Heq in *. assert (g0 = g) as -> by congruence.
    rewrite removePlayer_absent by (by rewrite Hempty, lookup_empty).
    rewrite Hempty, map_size_empty. simpl. split.
    + simpl. apply lookup_delete_None. by right.
    + exists (stop g). simpl. by rewrite list_lookup_insert_eq.
  - case_bool_decide; (split; simpl;
      [ try done; apply lookup_delete_None; by right
      | exists g; by rewrite list_lookup_insert_ne ]).
Qed.

(** It keeps the socket the only player of a room in which it is alone. *)
Lemma disconnect_listener_keeps_only_player now socketId l r s :
  only_player socketId r s →
  only_player socketId r (disconnect_listener now socketId l s).
Proof.
  intros (g & Hobj & Halone). unfold disconnect_listener.
  destruct (objects s !! l.2) as [g0|] eqn:Hobj0; [|by exists g].
  assert (l.2 < length (objects s)) as Hlen by by eapply lookup_lt_Some.
  destruct (decide (l.2 = r)) as [Heq|Hne].
  - rewrite Heq in *. assert (g0 = g) as -> by congruence.
    assert (∀ other, other ≠ socketId →
              players (removePlayer now socketId g) !! other = None) as Halone'.
    { intros other Hne. rewrite removePlayer_players, lookup_delete_ne by done.
      by apply Halone. }
    case_bool_decide.
    + exists (stop (removePlayer now socketId g)). simpl.
      by rewrite list_lookup_insert_eq.
    + exists (removePlayer now socketId g). simpl.
      by rewrite list_lookup_insert_eq.
  - case_bool_decide; exists g; simpl; by rewrite list_lookup_insert_ne.
Qed.

(** The listener the socket registered for the room it is alone in
    destroys that room. *)
Lemma disconnect_listener_destroys now socketId roomId r s :
  only_player socketId r s →
  destroyed roomId r (disconnect_listener now socketId (roomId, r) s).
Proof.
  intros (g & Hobj & Halone). unfold disconnect_listener. simpl. rewrite Hobj.
  assert (r < length (objects s)) as Hlen by by eapply lookup_lt_Some.
  assert (players (removePlayer now socketId g) = ∅) as Hempty.
  { apply map_empty. intros other. rewrite removePlayer_players.
    destruct (decide (other = socketId)) as [->|Hne];
      [apply lookup_delete_eq|].
    rewrite lookup_delete_ne by done. by apply Halone. }
  rewrite Hempty, map_size_empty. simpl. split; simpl.
  - apply lookup_delete_eq.
  - exists (stop (removePlayer now socketId g)).
    rewrite list_lookup_insert_eq by done. simpl. by rewrite Hempty.
Qed.

Lemma listeners_keep_destroyed now socketId ls roomId r s :
  destroyed roomId r s →
  destroyed roomId r
    (foldl (fun s' l => disconnect_listener now socketId l s') s ls).
Proof.
  revert s. induction ls as [|l ls IH]; intros s Hd; [done|]. simpl.
  by apply IH, disconnect_listener_keeps_destroyed.
Qed.

Lemma listeners_destroy now socketId ls roomId r s :
  (roomId, r) ∈ ls →
  only_player socketId r s →
  destroyed roomId r
    (foldl (fun s' l => disconnect_listener now socketId l s') s ls).
Proof.
  revert s. induction ls as [|l ls IH]; intros s Hin Halone;
    [by apply elem_of_nil in Hin|].
  simpl. apply elem_of_cons in Hin as [<-|Hin].
  - by apply listeners_keep_destroyed, disconnect_listener_destroys.
  - by apply IH, disconnect_listener_keeps_only_player.
Qed.

(** An accepted [joinRoom] leaves the room registered and the socket with
    a ['disconnect'] listener for it. *)
Lemma joinRoom_registers_disconnect_listener
    (FLY_MACHINE_ID : option string) now socketId data s :
  (∀ roomId r, games s !! roomId = Some r → r < length (objects s)) →
  let roomId := match data with JoinString r => r | JoinObject r _ => r end in
  let requestedInstance :=
    match data with JoinString _ => None | JoinObject _ i => i end in
  truthy requestedInstance
    && negb (bool_decide (requestedInstance = Some (instanceId FLY_MACHINE_ID)))
    && isFlyInstance FLY_MACHINE_ID = false →
  ∃ r ls, games (joinRoom FLY_MACHINE_ID now socketId data s) !! roomId = Some r
          ∧ disconnectListeners (joinRoom FLY_MACHINE_ID now socketId data s)
              !! socketId = Some ls
          ∧ (roomId, r) ∈ ls.
Proof.
  intros Hreg roomId requestedInstance Haccepted.
  unfold joinRoom. fold roomId requestedInstance. rewrite Haccepted.
  set (s1 := match games s !! roomId with Some _ => s | None => _ end).
  assert (∃ r g, games s1 !! roomId = Some r ∧ objects s1 !! r = Some g)
    as (r & g & Hr & Hg).
  { subst s1. destruct (games s !! roomId) as [r|] eqn:Hr.
    - destruct (lookup_lt_is_Some_2 (objects s) r) as [g Hg]; [by eapply Hreg|].
      by exists r, g.
    - eexists _, _. simpl. split; [apply lookup_insert_eq|].
      by rewrite lookup_app_r, Nat.sub_diag. }
  rewrite Hr, Hg. destruct (addPlayer socketId g) as [playerIndex g'].
  simpl. exists r. eexists. split; [done|].
  split; [apply lookup_insert_eq|]. apply elem_of_app. right. by left.
Qed.

(** C7. When the only player of a room disconnects, whatever the phase of
    the match, the handler that was registered when it joined destroys the
    room at once: the room is deleted from the registry, the room object
    has no player left, its loop is stopped and its timer cleared, so that
    a timer event of that room changes nothing any more: no tick, no
    broadcast. *)
Theorem disconnect_of_last_player_destroys_room
    (now : Q) (socketId roomId : string) (r e : nat) (ls : list (string * nat))
    (s : Server) (g : ServerGame) :
  disconnectListeners s !! socketId = Some ls →
  (roomId, r) ∈ ls →
  objects s !! r = Some g →
  players g = {[socketId := e]} →
  let s' := disconnect now socketId s in
  games s' !! roomId = None
  ∧ ∃ g', objects s' !! r = Some g'
          ∧ players g' = ∅ ∧ running g' = false ∧ interval g' = false
          ∧ ∀ time, timer_fires time g' = g' ∧ tick time r s' = s'.
Proof.
  intros Hls Hin Hobj Hplayers s'.
  assert (destroyed roomId r s') as (Hgone & g' & Hobj' & Hempty & Hrun & Hint).
  { subst s'. unfold disconnect. rewrite Hls. simpl.
    eapply (listeners_destroy now socketId ls roomId r s) in Hin as Hd.
    - destruct Hd as (Hgone & Hrest). by split.
    - exists g. split; [done|]. intros other Hne.
      rewrite Hplayers. by apply lookup_singleton_ne. }
  split; [done|]. exists g'. repeat split; try done.
  - unfold timer_fires. by rewrite Hint.
  - unfold tick. rewrite Hobj'. unfold timer_fires. rewrite Hint.
    unfold set_object. rewrite list_insert_id by done. by destruct s'.
Qed.

End Registry.

(** ** Instance routing *)

Section Routing.
Context `{BG : BaseGame}.

Lemma admits_nothing_refl s : admits_nothing s s.
Proof. split; [done|]. split; [done|]. intros r g' Hg'. by exists g'. Qed.

Lemma admits_nothing_trans s1 s2 s3 :
  admits_nothing s1 s2 → admits_nothing s2 s3 → admits_nothing s1 s3.
Proof.
  intros (Hlen1 & Hreg1 & Hpl1) (Hlen2 & Hreg2 & Hpl2).
  split; [congruence|]. split; [by etrans|].
  intros r g3 Hg3. destruct (Hpl2 r g3 Hg3) as (g2 & Hg2 & Hsub2).
  destruct (Hpl1 r g2 Hg2) as (g1 & Hg1 & Hsub1).
  exists g1. split; [done|]. by etrans.
Qed.

(** A ['disconnect'] listener only removes: a player, a registry entry. *)
Lemma disconnect_listener_admits_nothing now socketId l s :
  admits_nothing s (disconnect_listener now socketId l s).
Proof.
  unfold disconnect_listener.
  destruct (objects s !! l.2) as [g0|] eqn:Hobj0; [|apply admits_nothing_refl].
  assert (l.2 < length (objects s)) as Hlen by by eapply lookup_lt_Some.
  assert (players (removePlayer now socketId g0) ⊆ players g0) as Hsub
    by (rewrite removePlayer_players; apply delete_subseteq).
  assert (∀ g1 r g', players g1 ⊆ players g0 →
            <[l.2 := g1]> (objects s) !! r = Some g' →
            ∃ g, objects s !! r = Some g ∧ players g' ⊆ players g) as Hobjs.
  { intros g1 r g' Hsub1 Hg'.
    apply list_lookup_insert_Some in Hg' as [(<- & <- & _)|[_ Hg']].
    - by exists g0.
    - by exists g'. }
  case_bool_decide; (split; simpl; [by rewrite length_insert|]); split; simpl.
  - apply delete_subseteq.
  - intros r g'. by apply Hobjs.
  - done.
  - intros r g'. by apply Hobjs.
Qed.

Lemma disconnect_admits_nothing now socketId s :
  admits_nothing s (disconnect now socketId s).
Proof.
  unfold disconnect.
  generalize (default [] (disconnectListeners s !! socketId)). intros ls.
  assert (admits_nothing s
            (foldl (fun s' l => disconnect_listener now socketId l s') s ls))
    as Hfold.
  { revert s. induction ls as [|l ls IH]; intros s;
      [apply admits_nothing_refl|]. simpl.
    eapply admits_nothing_trans;
      [apply disconnect_listener_admits_nothing | apply IH]. }
  destruct Hfold as (H1 & H2 & H3). by split.
Qed.

Lemma disconnect_drops_listeners now socketId s :
  disconnectListeners (disconnect now socketId s) !! socketId = None
  ∧ gameListeners (disconnect now socketId s) !! socketId = None.
Proof. unfold disconnect. simpl. by rewrite !lookup_delete_eq. Qed.

Lemma disconnect_listener_sent now socketId l s :
  sent (disconnect_listener now socketId l s) = sent s.
Proof.
  unfold disconnect_listener.
  destruct (objects s !! l.2); [|done]. by case_bool_decide.
Qed.

Lemma disconnect_sent now socketId s : sent (disconnect now socketId s) = sent s.
Proof.
  unfold disconnect. simpl.
  generalize (default [] (disconnectListeners s !! socketId)). intros ls.
  revert s. induction ls as [|l ls IH]; intros s; [done|]. simpl.
  by rewrite IH, disconnect_listener_sent.
Qed.

(** C8, amended. On a Fly instance (FLY_MACHINE_ID is set), a joinRoom
    request tagged with a non-empty instance id other than the running
    instance's id is rejected: the socket is sent the error "Connected to
    wrong instance" and disconnected, and the request is not handed to the
    room layer: no room object is created, no room is registered and no
    room gains a player.  Off Fly the tag is not looked at: the request
    is served like the untagged request for the same room. *)
Theorem joinRoom_for_other_instance_rejected_on_fly
    (FLY_MACHINE_ID : option string) (now : Q) (socketId roomId tag : string)
    (s : Server) :
  (isFlyInstance FLY_MACHINE_ID = true →
   tag ≠ "" →
   tag ≠ instanceId FLY_MACHINE_ID →
   let s' := joinRoom FLY_MACHINE_ID now socketId (JoinObject roomId (Some tag)) s in
   admits_nothing s s'
   ∧ sent s' = sent s ++ [(socketId,
                           errorMsg "Connected to wrong instance" tag
                             (instanceId FLY_MACHINE_ID))]
   ∧ disconnectListeners s' !! socketId = None
   ∧ gameListeners s' !! socketId = None)
  ∧ (isFlyInstance FLY_MACHINE_ID = false →
     joinRoom FLY_MACHINE_ID now socketId (JoinObject roomId (Some tag)) s
     = joinRoom FLY_MACHINE_ID now socketId (JoinString roomId) s).
Proof.
  split.
  - intros Hfly Htag Hother s'. subst s'. unfold joinRoom.
    assert (truthy (Some tag) = true) as ->.
    { simpl. apply negb_true_iff. by apply String.eqb_neq. }
    rewrite bool_decide_eq_false_2 by congruence. rewrite Hfly.
    cbn [andb negb default]. split; [|split].
    + eapply admits_nothing_trans; [|apply disconnect_admits_nothing].
      exact (admits_nothing_refl s).
    + by rewrite disconnect_sent.
    + apply disconnect_drops_listeners.
  - intros Hlocal. unfold joinRoom. rewrite Hlocal.
    by rewrite andb_false_r.
Qed.

(** The same test guards the HTTP layer: on a Fly instance a socket.io
    request or upgrade whose URL names another instance is answered with a
    replay towards that instance, and the engine refuses a request whose
    query, as the engine parsed it, names another instance. *)
Lemma request_for_other_instance_replayed_on_fly
    (FLY_MACHINE_ID : option string) (req : Request) (u : ParsedUrl)
    (target : string) :
  isFlyInstance FLY_MACHINE_ID = true →
  target ≠ "" →
  target ≠ instanceId FLY_MACHINE_ID →
  (url req = Some u →
   String.prefix "/socket.io/" (pathname u) = true →
   or_else (searchParams_instance u) (header_instance req) = Some target →
   handleFlyInstanceRouting FLY_MACHINE_ID req = Some target)
  ∧ (or_else (engine_query_instance req) (header_instance req) = Some target →
     allowRequest FLY_MACHINE_ID req = false).
Proof.
  intros Hfly Hne Hother.
  assert (negb (String.eqb target "") = true) as Htruthy
    by (apply negb_true_iff; by apply String.eqb_neq).
  unfold handleFlyInstanceRouting, allowRequest. rewrite Hfly. split.
  - intros -> Hpath Htarget. simpl. rewrite Hpath, Htarget. simpl.
    rewrite Htruthy. by rewrite bool_decide_eq_false_2 by congruence.
  - intros Htarget. rewrite Htarget. simpl. rewrite Htruthy.
    by rewrite bool_decide_eq_false_2 by congruence.
Qed.

End Routing.

(** * The properties on example rooms *)

(** Three toggles during a celebration of 2.5 s leave the room in SCORING. *)
Lemma toggleReady_cannot_restart_during_celebration_witness :
  let g := demo_room SCORING (5 # 2) ∅ in
  let calls := [(1000%Q, "a", true); (1001%Q, "b", true); (1002%Q, "a", false)] in
  gameState (toggles (BG:=demo_base) calls g) = SCORING
  ∧ gameState (toggles (BG:=demo_base) calls g) ≠ COUNTDOWN
  ∧ sim (toggles (BG:=demo_base) calls g) = sim g
  ∧ paddles (toggles (BG:=demo_base) calls g) = paddles g
  ∧ players (toggles (BG:=demo_base) calls g) = players g.
Proof.
  apply (toggleReady_cannot_restart_during_celebration (BG:=demo_base));
    reflexivity.
Defined.

(** Both players ready and the celebration over: the check restarts. *)
Lemma checkAllReady_restarts_when_all_ready_witness :
  let g := demo_room SCORING 0 {[0; 1]} in
  let g' := checkAllReady (BG:=demo_base) 2000 g in
  gameState g' = COUNTDOWN
  ∧ readyEdges g' = ∅
  ∧ sim g' = resetState (BaseGame:=demo_base) (sim g)
  ∧ paddles g' =
      map (fun p => mkPaddle (edgeIndex p) (1 # 2) (width p) 0%Z) (paddles g)
  ∧ players g' = players g
  ∧ ∃ s, out g' = out g ++ [gameStateMsg s]
         ∧ s_gameState s = COUNTDOWN ∧ s_readyEdges s = ∅
         ∧ s_ball s = ball (resetState (BaseGame:=demo_base) (sim g)).
Proof.
  apply (checkAllReady_restarts_when_all_ready (BG:=demo_base)).
  - reflexivity.
  - apply insert_non_empty.
  - reflexivity.
  - reflexivity.
  - intros socketId e Hsock. simpl in Hsock.
    apply lookup_insert_Some in Hsock as [[_ <-]|[_ Hsock]]; [set_solver|].
    apply lookup_singleton_Some in Hsock as [_ <-]. set_solver.
Defined.

(** C3 as stated fails: 2.5 s of celebration are left, player "a" sends
    ready, and edge 0 enters the ready-edge set, which was empty. *)
Lemma toggleReady_during_celebration_changes_readyEdges :
  let g := demo_room SCORING (5 # 2) ∅ in
  gameState g = SCORING
  ∧ (0 < celebrationTimer (sim g))%Q
  ∧ players g !! "a" = Some 0
  ∧ readyEdges g = ∅
  ∧ readyEdges (toggleReady (BG:=demo_base) 1000 "a" true g) = {[0]}
  ∧ readyEdges (toggleReady (BG:=demo_base) 1000 "a" true g) ≠ readyEdges g.
Proof.
  assert (readyEdges (toggleReady (BG:=demo_base) 1000 "a" true
                        (demo_room SCORING (5 # 2) ∅)) = {[0]}) as Hready
    by (vm_compute; reflexivity).
  repeat split; try done.
Qed.

Lemma toggleReady_during_celebration_only_records_witness :
  let g := demo_room SCORING (5 # 2) ∅ in
  let g' := toggleReady (BG:=demo_base) 1000 "b" true g in
  readyEdges g' = readyEdges g ∪ {[1]}
  ∧ gameState g' = SCORING
  ∧ sim g' = sim g ∧ paddles g' = paddles g ∧ players g' = players g
  ∧ running g' = running g ∧ interval g' = interval g ∧ lastTime g' = lastTime g
  ∧ ∃ s, out g' = out g ++ [gameStateMsg s] ∧ s_gameState s = SCORING.
Proof.
  apply (toggleReady_during_celebration_only_records (BG:=demo_base)
           1000 "b" true 1 (demo_room SCORING (5 # 2) ∅));
    [reflexivity | reflexivity | vm_compute; reflexivity].
Defined.

(** C4 as stated fails: during the countdown, and in a terminated room,
    the input of player "a" sets the move direction of the paddle of
    edge 0. *)
Lemma handleInput_accepted_in_COUNTDOWN :
  let g := demo_room COUNTDOWN 0 ∅ in
  let t := demo_room TERMINATED 0 ∅ in
  gameState g ≠ PLAYING
  ∧ map moveDirection (paddles g) = [0; 0]%Z
  ∧ map moveDirection (paddles (handleInput "a" 1 g)) = [1; 0]%Z
  ∧ gameState t ≠ PLAYING
  ∧ map moveDirection (paddles (handleInput "a" (-1) t)) = [-1; 0]%Z.
Proof. repeat split; try done; vm_compute; reflexivity. Qed.

Lemma handleInput_refused_only_in_SCORING_witness :
  handleInput "a" 1 (demo_room SCORING 0 ∅) = demo_room SCORING 0 ∅
  ∧ handleInput "zz" 1 (demo_room PLAYING 0 ∅) = demo_room PLAYING 0 ∅
  ∧ paddles (handleInput "b" 1 (demo_room COUNTDOWN 0 ∅)) !! 1
    = Some (mkPaddle 1 (3 # 4) (1 # 2) 1)
  ∧ paddles (handleInput "b" 1 (demo_room COUNTDOWN 0 ∅)) !! 0
    = Some (mkPaddle 0 (1 # 4) (1 # 2) 0)
  ∧ out (handleInput "b" 1 (demo_room COUNTDOWN 0 ∅))
    = out (demo_room COUNTDOWN 0 ∅).
Proof.
  split; [|split].
  - apply (handleInput_refused_only_in_SCORING "a" 1 (demo_room SCORING 0 ∅)).
    left. reflexivity.
  - apply (handleInput_refused_only_in_SCORING "zz" 1 (demo_room PLAYING 0 ∅)).
    right. vm_compute. reflexivity.
  - destruct (handleInput_refused_only_in_SCORING "b" 1
                (demo_room COUNTDOWN 0 ∅)) as [_ Haccepted].
    destruct (Haccepted 1) as (Hpaddles & _ & _ & Hrest);
      [discriminate | vm_compute; reflexivity |].
    split; [|split].
    + apply (Hpaddles 1 (mkPaddle 1 (3 # 4) (1 # 2) 0)); [reflexivity..|].
      intros j q Hj Hq. destruct j as [|j]; [|lia].
      simpl in Hq. injection Hq as <-. simpl. lia.
    + by apply (Hpaddles 0 (mkPaddle 0 (1 # 4) (1 # 2) 0)).
    + apply Hrest.
Defined.

(** A third connection gets edge 2; a sixth one is turned away from the
    full pentagon. *)
Lemma addPlayer_assigns_lowest_free_edge_witness :
  addPlayer (BG:=demo_base) "f" full_room = ((-1)%Z, full_room)
  ∧ ∃ e, (e ∉ occupiedIndices (demo_room PLAYING 0 ∅))
         ∧ (∀ e', e' < e → e' ∈ occupiedIndices (demo_room PLAYING 0 ∅))
         ∧ e < 5
         ∧ (addPlayer (BG:=demo_base) "c" (demo_room PLAYING 0 ∅)).1 = Z.of_nat e
         ∧ players (addPlayer (BG:=demo_base) "c" (demo_room PLAYING 0 ∅)).2
           = <["c" := e]> (players (demo_room PLAYING 0 ∅))
         ∧ paddles (addPlayer (BG:=demo_base) "c" (demo_room PLAYING 0 ∅)).2
           = paddles (demo_room PLAYING 0 ∅) ++ [new_Paddle (BG:=demo_base) e]
         ∧ readyEdges (addPlayer (BG:=demo_base) "c" (demo_room PLAYING 0 ∅)).2
           = readyEdges (demo_room PLAYING 0 ∅).
Proof.
  split.
  - apply (addPlayer_assigns_lowest_free_edge (BG:=demo_base) "f" full_room).
    vm_compute. reflexivity.
  - apply (addPlayer_assigns_lowest_free_edge (BG:=demo_base) "c"
             (demo_room PLAYING 0 ∅)).
    + unfold paddleEdges. simpl. apply NoDup_ListNoDup.
      repeat constructor; simpl; lia.
    + vm_compute. lia.
Defined.

Example addPlayer_third_player :
  (addPlayer (BG:=demo_base) "c" (demo_room PLAYING 0 ∅)).1 = 2%Z.
Proof. reflexivity. Qed.

(** C6 as stated fails.  After player "a" has left the running match of
    "a" and "b", the room is TERMINATED and has emitted a snapshot and a
    gameTerminated; the ready toggle of "b", and then the disconnect of
    "b", each broadcast one more gameState snapshot.  And a room in phase
    PLAYING whose loop was stopped by a fault of the step is not
    terminated when a player leaves: it stays in PLAYING and emits no
    gameTerminated. *)
Lemma gameState_broadcast_after_gameTerminated :
  let g := demo_room PLAYING 0 ∅ in
  let g1 := removePlayer (BG:=demo_base) 2000 "a" g in
  let g2 := toggleReady (BG:=demo_base) 2100 "b" true g1 in
  let g3 := removePlayer (BG:=demo_base) 2200 "b" g2 in
  let f := loop (BG:=faulty_base) 1016 g in
  let f1 := removePlayer (BG:=faulty_base) 2000 "a" f in
  gameState g = PLAYING ∧ running g = true ∧ players g !! "a" = Some 0
  ∧ gameState g1 = TERMINATED
  ∧ (∃ s, out g1 = [gameStateMsg s; gameTerminated "A player left the game" 5 30])
  ∧ (∃ s, out g2 = out g1 ++ [gameStateMsg s] ∧ s_gameState s = TERMINATED)
  ∧ (∃ s, out g3 = out g2 ++ [gameStateMsg s] ∧ s_gameState s = TERMINATED)
  ∧ gameState f = PLAYING ∧ running f = false ∧ players f !! "a" = Some 0
  ∧ gameState f1 = PLAYING
  ∧ Forall is_gameState (out f1).
Proof.
  repeat split; try (vm_compute; reflexivity).
  - eexists. vm_compute. reflexivity.
  - eexists. split; vm_compute; reflexivity.
  - eexists. split; vm_compute; reflexivity.
  - vm_compute. by repeat constructor.
Qed.

Lemma removePlayer_while_PLAYING_terminates_witness :
  let g := demo_room PLAYING 0 ∅ in
  let g' := removePlayer (BG:=demo_base) 2000 "a" g in
  terminated g'
  ∧ (∃ s, out g' = out g ++
            [gameStateMsg s;
             gameTerminated "A player left the game" (score (sim g))
               (Qfloor (timeElapsed (sim g)))])
  ∧ ∀ ops, terminated (run (BG:=demo_base) ops g')
           ∧ (∀ time, timer_fires (BG:=demo_base) time (run (BG:=demo_base) ops g')
                      = run (BG:=demo_base) ops g')
           ∧ ∃ l, out (run (BG:=demo_base) ops g') = out g' ++ l
                  ∧ Forall is_gameState l.
Proof.
  apply (removePlayer_while_PLAYING_terminates (BG:=demo_base) 2000 "a" 0
           (demo_room PLAYING 0 ∅));
    [vm_compute; reflexivity | reflexivity | reflexivity].
Defined.

(** The only player of room "R" disconnects in mid-play. *)
Lemma disconnect_of_last_player_destroys_room_witness :
  let s' := disconnect (BG:=demo_base) 2000 "a" (solo_server PLAYING) in
  games s' !! "R" = None
  ∧ ∃ g', objects s' !! 0 = Some g'
          ∧ players g' = ∅ ∧ running g' = false ∧ interval g' = false
          ∧ ∀ time, timer_fires (BG:=demo_base) time g' = g'
                    ∧ tick (BG:=demo_base) time 0 s' = s'.
Proof.
  apply (disconnect_of_last_player_destroys_room (BG:=demo_base) 2000 "a" "R"
           0 0 [("R", 0)] (solo_server PLAYING) (solo_room PLAYING)).
  - vm_compute. reflexivity.
  - constructor.
  - reflexivity.
  - reflexivity.
Defined.

(** C8 as stated fails: a process that is not a Fly instance runs as
    instance "local"; a joinRoom tagged for instance "B" creates room "R"
    there and adds the socket as its first player. *)
Lemma joinRoom_for_other_instance_admitted_off_fly :
  let s' := joinRoom (BG:=demo_base) None 0 "s1" (JoinObject "R" (Some "B"))
              empty_server in
  "B" ≠ instanceId None
  ∧ games empty_server !! "R" = None
  ∧ games s' !! "R" = Some 0
  ∧ (∃ g, objects s' !! 0 = Some g ∧ players g !! "s1" = Some 0)
  ∧ sent s' = [("s1", initMsg 0 5 "local")].
Proof.
  repeat split; try done; try (vm_compute; reflexivity).
  eexists. split; vm_compute; reflexivity.
Qed.

Lemma joinRoom_for_other_instance_rejected_on_fly_witness :
  let s := solo_server PLAYING in
  let s' := joinRoom (BG:=demo_base) (Some "A") 3000 "s2"
              (JoinObject "R" (Some "B")) s in
  admits_nothing s s'
  ∧ sent s' = sent s ++ [("s2", errorMsg "Connected to wrong instance" "B"
                                  (instanceId (Some "A")))]
  ∧ disconnectListeners s' !! "s2" = None
  ∧ gameListeners s' !! "s2" = None.
Proof.
  apply (joinRoom_for_other_instance_rejected_on_fly (BG:=demo_base)
           (Some "A") 3000 "s2" "R" "B" (solo_server PLAYING));
    [reflexivity | discriminate | discriminate].
Defined.


Example loop_dt_of_a_stall :
  loop_dt 9000 (demo_room PLAYING 0 ∅) = (1 # 10)%Q.
Proof. reflexivity. Qed.

(** * Further properties of the room *)

Section RoomCalls.
Context `{BG : BaseGame}.

Lemma addPlayer_refuses_or_seats_aux (socketId : string) (g : ServerGame) :
  (addPlayer socketId g).2 = g
  ∨ (running (addPlayer socketId g).2 = running g
     ∧ gameState (addPlayer socketId g).2 = gameState g
     ∧ ∃ s, out (addPlayer socketId g).2 = out g ++ [gameStateMsg s]).
Proof.
  unfold addPlayer. destruct (_ <=? _); [by left|].
  destruct (_ <=? _); [by left|]. right. simpl. by eauto.
Qed.

(** X1. Whatever the room, addPlayer either refuses, returning -1 and
    leaving the room untouched, or returns an edge index below the side
    count on which no paddle sat: it then appends the paddle of that edge,
    maps the connection to it, keeps the phase and broadcasts one snapshot
    that lists the new paddle.  It accepts only while there are fewer
    paddles than sides, so it never takes their number above the side
    count. *)
Theorem addPlayer_refuses_or_seats (socketId : string) (g : ServerGame) :
  ((addPlayer socketId g).1 = (-1)%Z ∧ (addPlayer socketId g).2 = g)
  ∨ ∃ e, (addPlayer socketId g).1 = Z.of_nat e
         ∧ e < sides (sim g)
         ∧ (e ∉ paddleEdges g)
         ∧ length (paddles g) < sides (sim g)
         ∧ paddles (addPlayer socketId g).2 = paddles g ++ [new_Paddle e]
         ∧ length (paddles (addPlayer socketId g).2) ≤ sides (sim g)
         ∧ players (addPlayer socketId g).2 !! socketId = Some e
         ∧ gameState (addPlayer socketId g).2 = gameState g
         ∧ ∃ s, out (addPlayer socketId g).2 = out g ++ [gameStateMsg s]
                ∧ (e, Paddle_position0, Paddle_width0) ∈ s_paddles s.
Proof.
  unfold addPlayer.
  destruct (sides (sim g) <=? length (paddles g)) eqn:Hfull; [by left|].
  apply Nat.leb_gt in Hfull.
  destruct (scan_spec (occupiedIndices g) (sides (sim g)) (sides (sim g)) 0)
    as (_ & _ & Hstop & _); [lia|].
  set (e := scan _ _ _ _) in *.
  destruct (sides (sim g) <=? e) eqn:Hcmp; [by left|].
  apply Nat.leb_gt in Hcmp. destruct Hstop as [Hfree|]; [|lia].
  rewrite elem_of_occupiedIndices in Hfree.
  right. exists e. simpl. repeat split; try done.
  - rewrite length_app. simpl. lia.
  - apply lookup_insert_eq.
  - eexists. split; [reflexivity|]. simpl. rewrite map_app.
    apply elem_of_app. right. simpl. by left.
Qed.

Lemma filter_absent_edge (e : nat) (l : list nat) :
  e ∉ l → filter (fun x => x ≠ e) l = l.
Proof.
  induction l as [|x l IH]; [done|]. intros Hnot.
  apply not_elem_of_cons in Hnot as [Hne Hnot].
  rewrite filter_cons_True by done. by rewrite IH.
Qed.

(** X2. A connection that is not a player of the room and joins, then
    leaves, gives the room back its players and its paddles' edges: the
    edge it was given is free again. *)
Theorem addPlayer_then_removePlayer_restores
    (now : Q) (socketId : string) (g : ServerGame) :
  players g !! socketId = None →
  players (removePlayer now socketId (addPlayer socketId g).2) = players g
  ∧ paddleEdges (removePlayer now socketId (addPlayer socketId g).2)
    = paddleEdges g.
Proof.
  intros Hfresh. rewrite removePlayer_players, removePlayer_edges.
  destruct (addPlayer_free_edge socketId g) as [->|(e & Hfree & Hedges & Hpl)].
  - rewrite Hfresh. by rewrite delete_id.
  - rewrite Hpl, Hedges, lookup_insert_eq. split.
    + by rewrite delete_insert_id.
    + rewrite filter_app, filter_absent_edge by done.
      rewrite filter_cons_False, filter_nil by (intros Hne; by apply Hne).
      apply app_nil_r.
Qed.

Lemma toggleReady_readyEdges now socketId isReady e g :
  players g !! socketId = Some e →
  readyEdges (toggleReady now socketId isReady g)
  ⊆ (if isReady then readyEdges g ∪ {[e]} else readyEdges g ∖ {[e]}).
Proof.
  intros Hsock. unfold toggleReady. rewrite Hsock.
  set (g2 := broadcastState _).
  destruct (checkAllReady_edges now g2) as (_ & _ & Hsub).
  etrans; [exact Hsub|]. subst g2. by destruct isReady.
Qed.

Lemma removePlayer_readyEdges now socketId e g :
  players g !! socketId = Some e →
  readyEdges (removePlayer now socketId g) ⊆ readyEdges g ∖ {[e]}.
Proof.
  intros Hsock. unfold removePlayer. rewrite Hsock.
  set (g4 := broadcastState _).
  destruct (checkAllReady_edges now g4) as (_ & _ & Hsub).
  destruct (running _ && _); simpl; (etrans; [exact Hsub|]); by subst g4.
Qed.

Lemma call_keeps_room_sound op g :
  is_call op → room_sound g → room_sound (apply_op op g).
Proof.
  intros Hcall (Hnd & Hseat & Hinj & Hready).
  destruct op as [socketId|now socketId|now socketId isReady|socketId dir|time];
    simpl; [| | | |done].
  - destruct (addPlayer_free_edge socketId g) as [->|(e & Hfree & Hedges & Hpl)];
      [done|].
    assert (readyEdges (addPlayer socketId g).2 = readyEdges g) as Hr.
    { unfold addPlayer. destruct (_ <=? _); [done|]. by destruct (_ <=? _). }
    unfold room_sound, players_injective. rewrite Hedges, Hpl, Hr.
    split; [|split; [|split]].
    + apply NoDup_app. split; [done|]. split; [|apply NoDup_singleton].
      intros x Hx Hx'. apply list_elem_of_singleton in Hx'. by subst.
    + intros s e'. rewrite lookup_insert_Some, elem_of_app.
      intros [[_ <-]|[_ Hs]]; [right; by left|left; by eapply Hseat].
    + intros s1 s2 e'. rewrite !lookup_insert_Some.
      intros [[<- <-]|[Hne1 H1]] [[<- Heq]|[Hne2 H2]]; try done.
      * destruct Hfree. by eapply Hseat.
      * subst e'. destruct Hfree. by eapply Hseat.
      * by eapply Hinj.
    + intros e' He'. apply elem_of_app. left. by apply Hready.
  - destruct (players g !! socketId) as [e|] eqn:Hsock;
      [|by rewrite removePlayer_absent].
    pose proof (removePlayer_readyEdges now socketId e g Hsock) as Hr.
    unfold room_sound, players_injective.
    rewrite removePlayer_edges, removePlayer_players, Hsock.
    split; [by apply NoDup_filter|]. split; [|split].
    + intros s e'. rewrite lookup_delete_Some, list_elem_of_filter.
      intros [Hne Hs]. split; [|by eapply Hseat].
      intros ->. apply Hne. by eapply Hinj.
    + intros s1 s2 e'. rewrite !lookup_delete_Some.
      intros [_ H1] [_ H2]. by eapply Hinj.
    + intros e' He'. apply Hr in He'.
      apply elem_of_difference in He' as [He' Hne].
      apply list_elem_of_filter. split; [|by apply Hready].
      intros ->. apply Hne. by apply elem_of_singleton.
  - destruct (toggleReady_edges now socketId isReady g) as [Hedges Hpl].
    unfold room_sound, players_injective. rewrite Hedges, Hpl.
    split; [done|]. split; [done|]. split; [done|].
    destruct (players g !! socketId) as [e|] eqn:Hsock.
    + intros e' He'.
      apply (toggleReady_readyEdges now socketId isReady e g Hsock) in He'.
      destruct isReady.
      * apply elem_of_union in He' as [He'|He']; [by apply Hready|].
        apply elem_of_singleton in He'. subst. by eapply Hseat.
      * apply elem_of_difference in He' as [He' _]. by apply Hready.
    + unfold toggleReady. by rewrite Hsock.
  - destruct (handleInput_edges socketId dir g) as [Hedges Hpl].
    assert (readyEdges (handleInput socketId dir g) = readyEdges g) as Hr.
    { unfold handleInput. case_bool_decide; [done|].
      by destruct (players g !! socketId). }
    unfold room_sound, players_injective. by rewrite Hedges, Hpl, Hr.
Qed.

(** X3. Every sequence of calls (addPlayer, removePlayer, toggleReady,
    handleInput, by any connections, a connection that joins again
    included) keeps a room sound: its paddles sit on pairwise distinct
    edges, every player's edge has a paddle, no two players share an edge
    and every ready edge has a paddle. *)
Theorem calls_keep_room_sound (ops : list RoomOp) (g : ServerGame) :
  Forall is_call ops → room_sound g → room_sound (run ops g).
Proof.
  intros Hcalls. revert g. induction Hcalls as [|op ops Hcall _ IH];
    intros g Hsound; [done|].
  unfold run in *. simpl. by apply IH, call_keeps_room_sound.
Qed.

End RoomCalls.

(** ** The phases a room goes through *)

Section RoomPhases.
Context `{BG : BaseGame}.

Lemma count_gameTerminated_app l1 l2 :
  count_gameTerminated (l1 ++ l2) = count_gameTerminated l1 + count_gameTerminated l2.
Proof. unfold count_gameTerminated. by rewrite List.filter_app, length_app. Qed.

Lemma count_gameTerminated_snapshot l s :
  count_gameTerminated (l ++ [gameStateMsg s]) = count_gameTerminated l.
Proof. rewrite count_gameTerminated_app. unfold count_gameTerminated. simpl. lia. Qed.

Lemma count_gameTerminated_emitted l reason score time :
  count_gameTerminated (l ++ [gameTerminated reason score time])
  = S (count_gameTerminated l).
Proof. rewrite count_gameTerminated_app. unfold count_gameTerminated. simpl. lia. Qed.

Lemma allReady_iff g :
  allReady g = true ↔
  ∀ socketId e, players g !! socketId = Some e → e ∈ readyEdges g.
Proof.
  split; [|apply allReady_true].
  unfold allReady. rewrite forallb_forall. intros Hall socketId e Hsock.
  eapply bool_decide_eq_true_1, Hall.
  apply in_map_iff. exists (socketId, e). split; [done|].
  by apply list_elem_of_In, elem_of_map_to_list.
Qed.

(** The all-ready check either performs the reset, all its conditions
    being met, or leaves the room alone. *)
Lemma checkAllReady_cases now g :
  (checkAllReady now g = resetGame now g
   ∧ restarting g = false ∧ gameState g = SCORING ∧ players g ≠ ∅
   ∧ (celebrationTimer (sim g) <= 0)%Q ∧ allReady g = true)
  ∨ (checkAllReady now g = g
     ∧ (restarting g = true ∨ gameState g ≠ SCORING ∨ players g = ∅
        ∨ (0 < celebrationTimer (sim g))%Q ∨ allReady g = false)).
Proof.
  unfold checkAllReady.
  destruct (restarting g) eqn:Hrest; [right; by eauto|].
  destruct (decide (gameState g = SCORING)) as [Hphase|Hphase];
    [rewrite (bool_decide_eq_true_2 _ Hphase)
    |rewrite (bool_decide_eq_false_2 _ Hphase); right; by eauto].
  simpl. case_bool_decide as Hsize.
  { right. split; [done|]. do 2 right. left. by apply map_size_empty_iff. }
  destruct (Qlt_le_dec 0 (celebrationTimer (sim g))) as [Hpos|Hle];
    [right; by eauto 6|].
  destruct (allReady g) eqn:Hall; [|right; by eauto 6].
  left. repeat split; try done. intros Hempty. apply Hsize.
  by rewrite Hempty, map_size_empty.
Qed.

Lemma resetGame_fresh now g :
  restarting g = false →
  gameState (resetGame now g) = COUNTDOWN
  ∧ readyEdges (resetGame now g) = ∅
  ∧ running (resetGame now g) = running g
  ∧ interval (resetGame now g) = interval g
  ∧ lastTime (resetGame now g) = now
  ∧ sim (resetGame now g) = resetState (sim g)
  ∧ ∃ s, out (resetGame now g) = out g ++ [gameStateMsg s]
         ∧ s_gameState s = COUNTDOWN ∧ s_readyEdges s = ∅.
Proof.
  intros Hrest. unfold resetGame. rewrite Hrest. simpl.
  repeat split; try done. eexists. split; [reflexivity|]. done.
Qed.

(** One step of the check: the loop flags stay, no gameTerminated is
    emitted, and the phase stays or goes from SCORING to COUNTDOWN. *)
Lemma checkAllReady_step now g :
  running (checkAllReady now g) = running g
  ∧ interval (checkAllReady now g) = interval g
  ∧ count_gameTerminated (out (checkAllReady now g)) = count_gameTerminated (out g)
  ∧ (gameState (checkAllReady now g) = gameState g
     ∨ (gameState g = SCORING ∧ gameState (checkAllReady now g) = COUNTDOWN)).
Proof.
  destruct (checkAllReady_cases now g) as [(-> & Hrest & Hphase & _)|[-> _]];
    [|by eauto].
  destruct (resetGame_fresh now g Hrest) as (H1 & _ & H3 & H4 & _ & _ & s & H7 & _).
  rewrite H3, H4, H7, count_gameTerminated_snapshot.
  repeat split. by right.
Qed.

(** What one call can do to the phase, the loop and the log. *)
Lemma call_step op g :
  is_call op →
  (running (apply_op op g) = running g
   ∧ count_gameTerminated (out (apply_op op g)) = count_gameTerminated (out g)
   ∧ (gameState (apply_op op g) = gameState g
      ∨ (gameState g = SCORING ∧ gameState (apply_op op g) = COUNTDOWN)))
  ∨ (running g = true ∧ gameState g = PLAYING
     ∧ gameState (apply_op op g) = TERMINATED
     ∧ running (apply_op op g) = false
     ∧ count_gameTerminated (out (apply_op op g))
       = S (count_gameTerminated (out g))).
Proof.
  intros Hcall.
  destruct op as [socketId|now socketId|now socketId isReady|socketId dir|time];
    simpl; [| | | |done].
  - left. destruct (addPlayer_refuses_or_seats_aux socketId g)
      as [->|(H1 & H2 & s & H3)]; [by eauto|].
    rewrite H1, H2, H3, count_gameTerminated_snapshot.
    repeat split. by left.
  - unfold removePlayer.
    destruct (players g !! socketId) as [e|]; [|left; by eauto].
    set (g4 := broadcastState _).
    assert (running g4 = running g ∧ gameState g4 = gameState g
            ∧ count_gameTerminated (out g4) = count_gameTerminated (out g))
      as (Hr4 & Hp4 & Hc4).
    { subst g4. simpl. by rewrite count_gameTerminated_snapshot. }
    destruct (checkAllReady_step now g4) as (Hr5 & _ & Hc5 & Hp5).
    set (g5 := checkAllReady now g4) in *.
    destruct (running g5 && bool_decide (gameState g5 = PLAYING)) eqn:Hterm.
    + apply andb_true_iff in Hterm as [Hrun5 Hplay].
      apply bool_decide_eq_true in Hplay.
      right. simpl. rewrite count_gameTerminated_emitted.
      destruct Hp5 as [Hp5|[_ Hp5]]; [|congruence].
      repeat split; congruence.
    + left. split; [congruence|]. split; [congruence|].
      destruct Hp5 as [Hp5|[Hs Hp5]]; [left; congruence|right; split; congruence].
  - left. unfold toggleReady.
    destruct (players g !! socketId) as [e|]; [|by eauto].
    set (g2 := broadcastState _).
    assert (running g2 = running g ∧ gameState g2 = gameState g
            ∧ count_gameTerminated (out g2) = count_gameTerminated (out g))
      as (Hr2 & Hp2 & Hc2).
    { subst g2. destruct isReady; simpl;
        by rewrite count_gameTerminated_snapshot. }
    destruct (checkAllReady_step now g2) as (Hr & _ & Hc & Hp).
    split; [congruence|]. split; [congruence|].
    destruct Hp as [Hp|[Hs Hp]]; [left; congruence|right; split; congruence].
  - left. unfold handleInput. case_bool_decide; [by eauto|].
    destruct (players g !! socketId); by eauto.
Qed.

Lemma calls_on_terminated_room ops g :
  Forall is_call ops → running g = false → gameState g = TERMINATED →
  running (run ops g) = false
  ∧ gameState (run ops g) = TERMINATED
  ∧ count_gameTerminated (out (run ops g)) = count_gameTerminated (out g).
Proof.
  intros Hcalls. revert g. induction Hcalls as [|op ops Hcall _ IH];
    intros g Hstop Hphase; [done|].
  unfold run in *. simpl.
  destruct (call_step op g Hcall) as [(Hr & Hc & Hp)|(Hr & _)]; [|congruence].
  destruct (IH (apply_op op g)) as (Hr' & Hp' & Hc'); [congruence| |].
  - destruct Hp as [Hp|[Hp _]]; congruence.
  - repeat split; congruence.
Qed.

(** X4. The calls of the socket handlers move the phase of a room along
    two arrows only, SCORING to COUNTDOWN (the restart) and PLAYING to
    TERMINATED: after any sequence of calls a room that was in COUNTDOWN
    or TERMINATED is still there, one that was in SCORING is in SCORING or
    COUNTDOWN, one that was in PLAYING is in PLAYING or TERMINATED. *)
Theorem calls_move_phase_by_restart_or_termination
    (ops : list RoomOp) (g : ServerGame) :
  Forall is_call ops →
  match gameState g with
  | COUNTDOWN => gameState (run ops g) = COUNTDOWN
  | TERMINATED => gameState (run ops g) = TERMINATED
  | SCORING =>
      gameState (run ops g) = SCORING ∨ gameState (run ops g) = COUNTDOWN
  | PLAYING =>
      gameState (run ops g) = PLAYING ∨ gameState (run ops g) = TERMINATED
  end.
Proof.
  intros Hcalls. revert g. induction Hcalls as [|op ops Hcall _ IH]; intros g.
  - simpl. destruct (gameState g); by eauto.
  - specialize (IH (apply_op op g)). unfold run in *. simpl.
    destruct (call_step op g Hcall)
      as [(_ & _ & [Hp|[Hp Hp']])|(_ & Hp & Hp' & _)].
    + by rewrite <- Hp.
    + rewrite Hp. rewrite Hp' in IH. by right.
    + rewrite Hp. rewrite Hp' in IH. by right.
Qed.

(** X5. Over any sequence of calls a room emits gameTerminated at most
    once, and it emits one only if it was running in phase PLAYING, the
    calls leaving it TERMINATED and stopped. *)
Theorem calls_emit_gameTerminated_at_most_once
    (ops : list RoomOp) (g : ServerGame) :
  Forall is_call ops →
  count_gameTerminated (out (run ops g)) = count_gameTerminated (out g)
  ∨ (count_gameTerminated (out (run ops g)) = S (count_gameTerminated (out g))
     ∧ running g = true ∧ gameState g = PLAYING
     ∧ gameState (run ops g) = TERMINATED ∧ running (run ops g) = false).
Proof.
  intros Hcalls. revert g. induction Hcalls as [|op ops Hcall Hcalls IH];
    intros g; [by left|].
  unfold run in *. simpl.
  destruct (call_step op g Hcall)
    as [(Hr & Hc & Hp)|(Hr & Hp & Hp' & Hr' & Hc)].
  - destruct (IH (apply_op op g)) as [Hc'|(Hc' & Hr' & Hp' & Hp'' & Hr'')].
    + left. congruence.
    + right. destruct Hp as [Hp|[_ Hp]]; [|congruence].
      repeat split; congruence.
  - right.
    destruct (calls_on_terminated_room ops (apply_op op g) Hcalls Hr' Hp')
      as (Hr'' & Hp'' & Hc').
    unfold run in *. repeat split; congruence.
Qed.

End RoomPhases.

(** ** Ready toggles, leaving during the ready check, and input *)

Section ReadyAndInput.
Context `{BG : BaseGame}.

(** X6. In phase SCORING, the ready toggle of a player on edge [e]
    restarts the match exactly when the celebration timer has run out and
    every player's edge is ready once [e] is: then the ready set is
    emptied, lastTime is set to the clock reading and two snapshots are
    broadcast, the first still in SCORING, the second in COUNTDOWN. *)
Theorem toggleReady_restarts_iff_all_ready
    (now : Q) (socketId : string) (e : nat) (g : ServerGame) :
  gameState g = SCORING →
  restarting g = false →
  players g !! socketId = Some e →
  (gameState (toggleReady now socketId true g) = COUNTDOWN ↔
     (celebrationTimer (sim g) <= 0)%Q
     ∧ ∀ other e', players g !! other = Some e' → e' ∈ readyEdges g ∪ {[e]})
  ∧ (gameState (toggleReady now socketId true g) = COUNTDOWN →
     readyEdges (toggleReady now socketId true g) = ∅
     ∧ lastTime (toggleReady now socketId true g) = now
     ∧ ∃ s1 s2, out (toggleReady now socketId true g)
                = out g ++ [gameStateMsg s1; gameStateMsg s2]
                ∧ s_gameState s1 = SCORING ∧ s_gameState s2 = COUNTDOWN).
Proof.
  intros Hphase Hrest Hsock. unfold toggleReady. rewrite Hsock.
  set (g2 := broadcastState _).
  assert (players g2 ≠ ∅) as Hsome.
  { intros Hempty. assert (players g2 !! socketId = Some e) as Hs by done.
    by rewrite Hempty, lookup_empty in Hs. }
  destruct (checkAllReady_cases now g2)
    as [(-> & _ & _ & _ & Htimer & Hall)|(-> & Hwhy)].
  - destruct (resetGame_fresh now g2 Hrest)
      as (H1 & H2 & _ & _ & H5 & _ & s & H7 & H8 & _).
    split; [split|].
    + intros _. split; [done|]. exact (proj1 (allReady_iff g2) Hall).
    + done.
    + intros _. split; [done|]. split; [done|].
      eexists _, s. rewrite H7. subst g2. simpl. rewrite <- app_assoc.
      by repeat split.
  - assert (gameState g2 ≠ COUNTDOWN) as Hne by (subst g2; simpl; congruence).
    split; [split|]; [done| |done].
    intros [Htimer Hall]. exfalso.
    destruct Hwhy as [Hw|[Hw|[Hw|[Hw|Hw]]]].
    + subst g2. simpl in Hw. congruence.
    + by apply Hw.
    + done.
    + subst g2. simpl in Hw. lra.
    + assert (allReady g2 = true) as Hyes
        by exact (proj2 (allReady_iff g2) Hall).
      congruence.
Qed.

(** X7. A toggle with ready = false never restarts the match, whoever
    sends it and in whatever phase: the phase, the simulation and the
    paddles stay, and for a connected player the ready set is the old one
    without the player's edge. *)
Theorem toggleReady_false_never_restarts
    (now : Q) (socketId : string) (g : ServerGame) :
  gameState (toggleReady now socketId false g) = gameState g
  ∧ sim (toggleReady now socketId false g) = sim g
  ∧ paddles (toggleReady now socketId false g) = paddles g
  ∧ ∀ e, players g !! socketId = Some e →
         readyEdges (toggleReady now socketId false g) = readyEdges g ∖ {[e]}.
Proof.
  unfold toggleReady.
  destruct (players g !! socketId) as [e|] eqn:Hsock; [|done].
  set (g2 := broadcastState _).
  assert (checkAllReady now g2 = g2) as ->.
  { destruct (checkAllReady_cases now g2) as [(_ & _ & _ & _ & _ & Hall)|[-> _]];
      [|done].
    exfalso. rewrite allReady_iff in Hall.
    specialize (Hall socketId e Hsock). subst g2. simpl in Hall.
    apply elem_of_difference in Hall as [_ Hall]. apply Hall.
    by apply elem_of_singleton. }
  subst g2. simpl. repeat split; try done. intros e' He'. congruence.
Qed.

(** X8. A player on edge [e] leaves during the ready check (phase
    SCORING, celebration over).  If other players remain and all of them
    are ready, the departure restarts the match for them: COUNTDOWN, with
    the ready set emptied.  If the player was the last one, the room
    stays in SCORING with no player. *)
Theorem removePlayer_during_ready_check
    (now : Q) (socketId : string) (e : nat) (g : ServerGame) :
  gameState g = SCORING →
  restarting g = false →
  (celebrationTimer (sim g) <= 0)%Q →
  players g !! socketId = Some e →
  ((∃ other, other ≠ socketId ∧ is_Some (players g !! other)) →
   (∀ other e', other ≠ socketId → players g !! other = Some e' →
                e' ≠ e ∧ e' ∈ readyEdges g) →
   gameState (removePlayer now socketId g) = COUNTDOWN
   ∧ readyEdges (removePlayer now socketId g) = ∅
   ∧ players (removePlayer now socketId g) = delete socketId (players g))
  ∧ ((∀ other, other ≠ socketId → players g !! other = None) →
     gameState (removePlayer now socketId g) = SCORING
     ∧ players (removePlayer now socketId g) = ∅).
Proof.
  intros Hphase Hrest Htimer Hsock.
  pose proof (removePlayer_players now socketId g) as Hplayers.
  assert (∃ g4, players g4 = delete socketId (players g)
                ∧ readyEdges g4 = readyEdges g ∖ {[e]}
                ∧ gameState g4 = SCORING ∧ restarting g4 = false
                ∧ sim g4 = sim g
                ∧ removePlayer now socketId g = checkAllReady now g4)
    as (g4 & Hp4 & Hr4 & Hph4 & Hre4 & Hsim4 & Heq).
  { unfold removePlayer. rewrite Hsock. set (g4 := broadcastState _).
    exists g4. repeat split; try done.
    destruct (checkAllReady_step now g4) as (_ & _ & _ & Hp).
    assert (gameState g4 = SCORING) as Hph by done.
    rewrite bool_decide_eq_false_2, andb_false_r; [done|].
    destruct Hp as [Hp|[_ Hp]]; congruence. }
  rewrite Heq in *. clear Heq.
  destruct (checkAllReady_cases now g4)
    as [(Hcheck & _ & _ & Hsome & _ & Hall)|(Hcheck & Hwhy)];
    rewrite Hcheck in *.
  - destruct (resetGame_fresh now g4 Hre4) as (H1 & H2 & _). split.
    + by intros _ _.
    + intros Halone. exfalso. apply Hsome. apply map_empty. intros other.
      rewrite Hp4. destruct (decide (other = socketId)) as [->|Hne];
        [apply lookup_delete_eq|].
      rewrite lookup_delete_ne by done. by apply Halone.
  - split.
    + intros (other & Hne & e' & Hother) Hready. exfalso.
      destruct Hwhy as [Hw|[Hw|[Hw|[Hw|Hw]]]].
      * congruence.
      * by apply Hw.
      * assert (players g4 !! other = Some e') as Hs
          by (by rewrite Hp4, lookup_delete_ne).
        by rewrite Hw, lookup_empty in Hs.
      * rewrite Hsim4 in Hw. lra.
      * assert (allReady g4 = true) as Hyes; [|congruence].
        apply allReady_iff. intros s e''. rewrite Hp4, Hr4.
        rewrite lookup_delete_Some. intros [Hne' Hs].
        destruct (Hready s e'' (not_eq_sym Hne') Hs) as [Hdiff Hin].
        apply elem_of_difference. split; [done|].
        by rewrite elem_of_singleton.
    + intros Halone. split; [done|]. rewrite Hplayers.
      apply map_empty. intros other.
      destruct (decide (other = socketId)) as [->|Hne];
        [apply lookup_delete_eq|].
      rewrite lookup_delete_ne by done. by apply Halone.
Qed.

(** X9. handleInput touches move directions only, and only on the edge
    of the caller: it emits nothing, keeps the players, the ready edges,
    the phase and the number of paddles, and every paddle is left as it
    was or, if it sits on the caller's edge outside SCORING, is given the
    direction sent, keeping its edge, position and width.  When the call
    is accepted and the caller's edge has a paddle, a paddle of that edge
    does carry the direction afterwards. *)
Theorem handleInput_steers_only_the_callers_paddle
    (socketId : string) (dir : Z) (g : ServerGame) :
  out (handleInput socketId dir g) = out g
  ∧ players (handleInput socketId dir g) = players g
  ∧ readyEdges (handleInput socketId dir g) = readyEdges g
  ∧ gameState (handleInput socketId dir g) = gameState g
  ∧ length (paddles (handleInput socketId dir g)) = length (paddles g)
  ∧ (∀ i p, paddles g !! i = Some p →
       paddles (handleInput socketId dir g) !! i = Some p
       ∨ (gameState g ≠ SCORING
          ∧ players g !! socketId = Some (edgeIndex p)
          ∧ paddles (handleInput socketId dir g) !! i
            = Some (mkPaddle (edgeIndex p) (position p) (width p) dir)))
  ∧ (∀ index, gameState g ≠ SCORING → players g !! socketId = Some index →
       index ∈ paddleEdges g →
       ∃ p, p ∈ paddles (handleInput socketId dir g)
            ∧ edgeIndex p = index ∧ moveDirection p = dir).
Proof.
  unfold handleInput. case_bool_decide as Hphase.
  { repeat split; try done. by left. }
  destruct (players g !! socketId) as [index|] eqn:Hsock.
  - simpl. repeat split; try done.
    + rewrite <- !(length_map edgeIndex). by rewrite steer_edges.
    + intros i p Hp.
      destruct (steer_lookup index dir (paddles g) i p Hp) as [|[<- Hi]];
        [by left|by right].
    + intros index' _ [= <-] Hin. by apply steer_hits.
  - repeat split; try done. by left.
Qed.

(** Nothing re-arms a stopped loop: no call and no timer event. *)
Lemma stopped_step op g :
  running g = false → interval g = false →
  running (apply_op op g) = false ∧ interval (apply_op op g) = false.
Proof.
  intros Hrun Hint.
  destruct op as [socketId|now socketId|now socketId isReady|socketId dir|time];
    simpl.
  - unfold addPlayer. destruct (_ <=? _); [done|]. by destruct (_ <=? _).
  - unfold removePlayer. destruct (players g !! socketId); [|done].
    set (g4 := broadcastState _).
    destruct (checkAllReady_step now g4) as (Hr & Hi & _).
    destruct (running _ && _); [done|]. by rewrite Hr, Hi.
  - unfold toggleReady. destruct (players g !! socketId); [|done].
    set (g2 := broadcastState _).
    destruct (checkAllReady_step now g2) as (Hr & Hi & _).
    rewrite Hr, Hi. by destruct isReady.
  - unfold handleInput. case_bool_decide; [done|].
    by destruct (players g !! socketId).
  - unfold timer_fires. by rewrite Hint.
Qed.

(** X10. A tick of an armed timer whose update step throws stops the
    room for good: loop emits nothing of its own after the failed step,
    the room is no longer running and its timer is cleared, and whatever
    calls and timer events follow, the room stays stopped and a timer
    event changes nothing: it never ticks again. *)
Theorem faulty_tick_stops_the_room_for_good (time : Q) (g : ServerGame) :
  interval g = true →
  (update (loop_dt time g) (set_lastTime time g)).2 = false →
  let g' := timer_fires time g in
  running g' = false
  ∧ interval g' = false
  ∧ out g' = out (update (loop_dt time g) (set_lastTime time g)).1
  ∧ ∀ ops, running (run ops g') = false
           ∧ interval (run ops g') = false
           ∧ ∀ t, timer_fires t (run ops g') = run ops g'.
Proof.
  intros Harmed Hthrown g'.
  assert (g' = stop (update (loop_dt time g) (set_lastTime time g)).1) as Hfire.
  { subst g'. unfold timer_fires, loop. rewrite Harmed.
    destruct (update _ _) as [g2 ok]. simpl in *. by rewrite Hthrown. }
  assert (running g' = false ∧ interval g' = false) as [Hrun Hint]
    by by rewrite Hfire.
  split; [done|]. split; [done|]. split; [by rewrite Hfire|].
  intros ops.
  assert (running (run ops g') = false ∧ interval (run ops g') = false)
    as [Hrun' Hint'].
  { clear Hfire. generalize dependent g'.
    induction ops as [|op ops IH]; intros g' Hrun Hint; [done|].
    unfold run in *. simpl.
    destruct (stopped_step op g' Hrun Hint) as [Hr Hi]. by apply IH. }
  split; [done|]. split; [done|]. intros t. unfold timer_fires.
  by rewrite Hint'.
Qed.

End ReadyAndInput.

(** * Further properties of the server entry point *)

Section Entry.
Context `{BG : BaseGame}.

(** An accepted [joinRoom], spelled out. *)
Lemma accepted_joinRoom (FLY_MACHINE_ID : option string) now socketId data s :
  wrong_instance FLY_MACHINE_ID data = false →
  (∀ id r, games s !! id = Some r → r < length (objects s)) →
  ∃ r g, (games s !! join_roomId data = Some r ∧ objects s !! r = Some g
          ∨ games s !! join_roomId data = None ∧ r = length (objects s)
            ∧ g = start now new_ServerGame)
         ∧ joinRoom FLY_MACHINE_ID now socketId data s =
           mkServer (<[r := (addPlayer socketId g).2]>
                       (match games s !! join_roomId data with
                        | Some _ => objects s
                        | None => objects s ++ [g]
                        end))
             (<[join_roomId data := r]> (games s))
             (<[socketId := default [] (disconnectListeners s !! socketId)
                              ++ [(join_roomId data, r)]]> (disconnectListeners s))
             (<[socketId := r]> (gameListeners s))
             (sent s ++ [(socketId,
                          initMsg (addPlayer socketId g).1
                            (sides (sim (addPlayer socketId g).2))
                            (instanceId FLY_MACHINE_ID))]).
Proof.
  intros Haccepted Hreg. unfold joinRoom.
  change (truthy _ && _ && _) with (wrong_instance FLY_MACHINE_ID data).
  rewrite Haccepted.
  change (match data with JoinString r => r | JoinObject r _ => r end)
    with (join_roomId data).
  destruct (games s !! join_roomId data) as [r|] eqn:Hr.
  - destruct (lookup_lt_is_Some_2 (objects s) r) as [g Hg]; [by eapply Hreg|].
    exists r, g. split; [by left|]. rewrite Hr, Hg.
    destruct (addPlayer socketId g) as [playerIndex g']. simpl.
    by rewrite (insert_id (games s) (join_roomId data) r Hr).
  - exists (length (objects s)), (start now new_ServerGame).
    split; [by right|]. simpl. rewrite lookup_insert_eq.
    rewrite lookup_app_r, Nat.sub_diag by done. simpl.
    by destruct (addPlayer socketId (start now new_ServerGame))
      as [playerIndex g'].
Qed.

(** X12. A joinRoom that is not turned away for its instance leaves the
    room id registered and the socket bound to that room: its input and
    ready events go to the room just joined, and a disconnect listener
    for it is added after those the socket already had.  A room object
    is created only for an id the registry did not know, as the next
    object; every other registry entry, every other socket's listeners
    and every other room object are left as they were. *)
Theorem joinRoom_binds_the_socket_to_the_room
    (FLY_MACHINE_ID : option string) (now : Q) (socketId : string)
    (data : JoinData) (s : Server) :
  wrong_instance FLY_MACHINE_ID data = false →
  (∀ id r, games s !! id = Some r → r < length (objects s)) →
  let s' := joinRoom FLY_MACHINE_ID now socketId data s in
  ∃ r, games s' !! join_roomId data = Some r
       ∧ r < length (objects s')
       ∧ gameListeners s' !! socketId = Some r
       ∧ disconnectListeners s' !! socketId
         = Some (default [] (disconnectListeners s !! socketId)
                   ++ [(join_roomId data, r)])
       ∧ match games s !! join_roomId data with
         | Some r0 => r = r0 ∧ length (objects s') = length (objects s)
         | None => r = length (objects s)
                   ∧ length (objects s') = S (length (objects s))
         end
       ∧ (∀ id, id ≠ join_roomId data → games s' !! id = games s !! id)
       ∧ (∀ other, other ≠ socketId →
            disconnectListeners s' !! other = disconnectListeners s !! other
            ∧ gameListeners s' !! other = gameListeners s !! other)
       ∧ (∀ r', r' ≠ r → r' < length (objects s) →
            objects s' !! r' = objects s !! r').
Proof.
  intros Haccepted Hreg s'.
  destruct (accepted_joinRoom FLY_MACHINE_ID now socketId data s Haccepted Hreg)
    as (r & g & Hroom & Heq).
  subst s'. rewrite Heq. simpl. exists r.
  split; [apply lookup_insert_eq|].
  assert (r < length (<[r := (addPlayer socketId g).2]>
                        (match games s !! join_roomId data with
                         | Some _ => objects s
                         | None => objects s ++ [g]
                         end))
          ∧ match games s !! join_roomId data with
            | Some r0 =>
                r = r0
                ∧ length (<[r := (addPlayer socketId g).2]> (objects s))
                  = length (objects s)
            | None =>
                r = length (objects s)
                ∧ length (<[r := (addPlayer socketId g).2]> (objects s ++ [g]))
                  = S (length (objects s))
            end) as [Hlen Hcase].
  { rewrite length_insert.
    destruct Hroom as [[Hr Hg]|(Hr & -> & _)]; rewrite Hr.
    - rewrite length_insert. split; [by eapply lookup_lt_Some|done].
    - rewrite length_insert, length_app. simpl. split; [lia|]. split; lia. }
  split; [done|]. split; [apply lookup_insert_eq|].
  split; [apply lookup_insert_eq|]. split.
  { destruct (games s !! join_roomId data); done. }
  split; [intros id Hid; by rewrite lookup_insert_ne|]. split.
  - intros other Hother. by rewrite !lookup_insert_ne.
  - intros r' Hr' Hlen'. rewrite list_lookup_insert_ne by done.
    destruct (games s !! join_roomId data); [done|].
    by rewrite lookup_app_l.
Qed.

(** X13. The first joinRoom for a room id creates the room object,
    registers it under that id and starts it: the object is running with
    its timer armed and has taken the clock reading as lastTime.  The
    creator is its only player, on the edge whose index the init message
    carries, unless addPlayer refused, in which case the room has no
    player and the message carries -1. *)
Theorem joinRoom_creates_and_starts_the_room
    (FLY_MACHINE_ID : option string) (now : Q) (socketId : string)
    (data : JoinData) (s : Server) :
  wrong_instance FLY_MACHINE_ID data = false →
  (∀ id r, games s !! id = Some r → r < length (objects s)) →
  games s !! join_roomId data = None →
  let s' := joinRoom FLY_MACHINE_ID now socketId data s in
  games s' !! join_roomId data = Some (length (objects s))
  ∧ ∃ g, objects s' = objects s ++ [g]
         ∧ running g = true ∧ interval g = true ∧ lastTime g = now
         ∧ ((players g = ∅
             ∧ sent s' = sent s ++ [(socketId, initMsg (-1) (sides (sim g))
                                                 (instanceId FLY_MACHINE_ID))])
            ∨ ∃ e, players g = {[socketId := e]}
                   ∧ e ∈ paddleEdges g
                   ∧ sent s' = sent s ++
                               [(socketId, initMsg (Z.of_nat e) (sides (sim g))
                                             (instanceId FLY_MACHINE_ID))]).
Proof.
  intros Haccepted Hreg Hnew s'.
  destruct (accepted_joinRoom FLY_MACHINE_ID now socketId data s Haccepted Hreg)
    as (r & g & [[Hr _]|(_ & -> & ->)] & Heq); [congruence|].
  subst s'. rewrite Heq, Hnew. simpl.
  split; [apply lookup_insert_eq|].
  exists (addPlayer socketId (start now new_ServerGame)).2. split.
  { rewrite insert_app_r_alt, Nat.sub_diag by done. done. }
  set (g0 := start now new_ServerGame).
  assert (running g0 = true ∧ interval g0 = true ∧ lastTime g0 = now
          ∧ players g0 = ∅) as (Hrun & Hint & Hlast & Hnone) by done.
  unfold addPlayer.
  destruct (sides (sim g0) <=? length (paddles g0)); [by repeat split; try left|].
  destruct (sides (sim g0) <=? scan _ _ _ _); [by repeat split; try left|].
  simpl. repeat split; try done. right. eexists. split; [|split; [|done]].
  - by rewrite insert_empty.
  - unfold paddleEdges. simpl. by left.
Qed.

(** X14. A joinRoom for a room that has as many paddles as sides is
    answered with player index -1 and does not change the room object or
    the registry; the socket is bound to the room all the same, with a
    disconnect listener for it. *)
Theorem joinRoom_to_a_full_room
    (FLY_MACHINE_ID : option string) (now : Q) (socketId : string)
    (data : JoinData) (s : Server) (r : nat) (g : ServerGame) :
  wrong_instance FLY_MACHINE_ID data = false →
  (∀ id r, games s !! id = Some r → r < length (objects s)) →
  games s !! join_roomId data = Some r →
  objects s !! r = Some g →
  sides (sim g) ≤ length (paddles g) →
  let s' := joinRoom FLY_MACHINE_ID now socketId data s in
  objects s' = objects s
  ∧ games s' = games s
  ∧ sent s' = sent s ++ [(socketId, initMsg (-1) (sides (sim g))
                                      (instanceId FLY_MACHINE_ID))]
  ∧ gameListeners s' !! socketId = Some r
  ∧ disconnectListeners s' !! socketId
    = Some (default [] (disconnectListeners s !! socketId)
              ++ [(join_roomId data, r)]).
Proof.
  intros Haccepted Hreg Hr Hg Hfull s'.
  destruct (accepted_joinRoom FLY_MACHINE_ID now socketId data s Haccepted Hreg)
    as (r' & g' & [[Hr' Hg']|(Hnone & _)] & Heq); [|congruence].
  assert (r' = r) as -> by congruence. assert (g' = g) as -> by congruence.
  assert (addPlayer socketId g = ((-1)%Z, g)) as Hrefused.
  { unfold addPlayer. by rewrite (proj2 (Nat.leb_le _ _) Hfull). }
  subst s'. rewrite Heq, Hr, Hrefused. simpl.
  rewrite list_insert_id, (insert_id (games s) _ r Hr) by done.
  repeat split; apply lookup_insert_eq.
Qed.

(** Shrinking the registry and the listeners, with no object lost, keeps
    references valid. *)
Lemma server_ok_mono s s' :
  length (objects s) ≤ length (objects s') →
  games s' ⊆ games s →
  (∀ socketId ls, disconnectListeners s' !! socketId = Some ls →
                  disconnectListeners s !! socketId = Some ls) →
  (∀ socketId r, gameListeners s' !! socketId = Some r →
                 gameListeners s !! socketId = Some r) →
  server_ok s → server_ok s'.
Proof.
  intros Hlen Hgames Hdl Hgl (Hreg & Hls & Hbound & Hinj).
  split; [|split; [|split]].
  - intros id r Hr. eapply Nat.lt_le_trans; [|exact Hlen].
    eapply Hreg. by eapply lookup_weaken.
  - intros socketId ls l Hl Hin. eapply Nat.lt_le_trans; [|exact Hlen].
    eapply Hls; [by apply Hdl|done].
  - intros socketId r Hr. eapply Nat.lt_le_trans; [|exact Hlen].
    eapply Hbound. by apply Hgl.
  - intros id1 id2 r H1 H2.
    eapply Hinj; by eapply lookup_weaken.
Qed.

Lemma set_object_keeps_server_ok r g s :
  server_ok s → server_ok (set_object r g s).
Proof.
  apply server_ok_mono; simpl; [by rewrite length_insert|done..].
Qed.

Lemma disconnect_listener_keeps_server_ok now socketId l s :
  server_ok s → server_ok (disconnect_listener now socketId l s).
Proof.
  unfold disconnect_listener. destruct (objects s !! l.2); [|done].
  case_bool_decide; [|apply set_object_keeps_server_ok].
  apply server_ok_mono; simpl;
    [by rewrite length_insert|apply delete_subseteq|done..].
Qed.

Lemma disconnect_keeps_server_ok now socketId s :
  server_ok s → server_ok (disconnect now socketId s).
Proof.
  intros Hok. unfold disconnect.
  generalize (default [] (disconnectListeners s !! socketId)). intros ls.
  assert (server_ok
            (foldl (fun s' l => disconnect_listener now socketId l s') s ls))
    as Hfold.
  { revert s Hok. induction ls as [|l ls IH]; intros s Hok; [done|]. simpl.
    by apply IH, disconnect_listener_keeps_server_ok. }
  revert Hfold. apply server_ok_mono; simpl; [done|done| |].
  - intros other ls'. rewrite lookup_delete_Some. by intros [_ ?].
  - intros other r. rewrite lookup_delete_Some. by intros [_ ?].
Qed.

Lemma joinRoom_keeps_server_ok (FLY_MACHINE_ID : option string)
    now socketId data s :
  server_ok s → server_ok (joinRoom FLY_MACHINE_ID now socketId data s).
Proof.
  intros Hok.
  destruct (wrong_instance FLY_MACHINE_ID data) eqn:Hwrong.
  - unfold joinRoom.
    change (truthy _ && _ && _) with (wrong_instance FLY_MACHINE_ID data).
    rewrite Hwrong. apply disconnect_keeps_server_ok.
    revert Hok. by apply server_ok_mono.
  - destruct Hok as (Hreg & Hls & Hbound & Hinj).
    destruct (accepted_joinRoom FLY_MACHINE_ID now socketId data s Hwrong Hreg)
      as (r & g & Hroom & ->).
    set (objs := match games s !! join_roomId data with
                 | Some _ => objects s
                 | None => objects s ++ [g]
                 end).
    assert (length (objects s) ≤ length objs ∧ r < length objs) as [Hgrow Hr].
    { subst objs. destruct Hroom as [[Hr Hg]|(Hr & -> & _)]; rewrite Hr.
      - split; [done|]. by eapply lookup_lt_Some.
      - rewrite length_app. simpl. lia. }
    split; [|split; [|split]]; simpl; rewrite ?length_insert.
    + intros id r'. rewrite lookup_insert_Some.
      intros [[_ <-]|[_ Hr']]; [done|].
      eapply Nat.lt_le_trans; [by eapply Hreg|done].
    + intros other ls l. rewrite lookup_insert_Some.
      intros [[_ <-]|[_ Hl]] Hin.
      * apply elem_of_app in Hin as [Hin|Hin].
        -- destruct (disconnectListeners s !! socketId) as [ls0|] eqn:Hls0;
             simpl in Hin; [|by apply elem_of_nil in Hin].
           eapply Nat.lt_le_trans; [by eapply Hls|done].
        -- apply list_elem_of_singleton in Hin. by subst l.
      * eapply Nat.lt_le_trans; [by eapply Hls|done].
    + intros other r'. rewrite lookup_insert_Some.
      intros [[_ <-]|[_ Hr']]; [done|].
      eapply Nat.lt_le_trans; [by eapply Hbound|done].
    + assert (∀ id r', games s !! id = Some r' → r' = r →
                id = join_roomId data) as Hfresh.
      { intros id r' Hid ->.
        destruct Hroom as [[Hr0 _]|(_ & Hr0 & _)].
        - by eapply Hinj.
        - apply Hreg in Hid. lia. }
      intros id1 id2 r'. rewrite !lookup_insert_Some.
      intros [[<- <-]|[Hne1 H1]] [[<- Heq]|[Hne2 H2]]; try done.
      * symmetry. by eapply Hfresh.
      * subst r'. by eapply Hfresh.
      * by eapply Hinj.
Qed.

(** X15. Whatever events reach the process, in whatever order, its
    references stay valid: every registry entry, every disconnect
    listener and every input binding refers to a room object that exists,
    and no two room ids share a room object. *)
Theorem serve_keeps_references_valid
    (FLY_MACHINE_ID : option string) (evs : list ServerEvent) (s : Server) :
  server_ok s → server_ok (serve FLY_MACHINE_ID evs s).
Proof.
  revert s. induction evs as [|ev evs IH]; intros s Hok; [done|].
  unfold serve in *. simpl. apply IH.
  destruct ev as [now socketId data|socketId dir|now socketId ready
                 |now socketId|time r]; simpl.
  - by apply joinRoom_keeps_server_ok.
  - unfold input. destruct (gameListeners s !! socketId); [|done].
    destruct (objects s !! _); [|done]. by apply set_object_keeps_server_ok.
  - unfold playerReady. destruct (gameListeners s !! socketId); [|done].
    destruct (objects s !! _); [|done]. by apply set_object_keeps_server_ok.
  - by apply disconnect_keeps_server_ok.
  - unfold tick. destruct (objects s !! r); [|done].
    by apply set_object_keeps_server_ok.
Qed.

Lemma disconnect_listener_frame now socketId l s :
  (∀ r, r ≠ l.2 →
     objects (disconnect_listener now socketId l s) !! r = objects s !! r)
  ∧ (∀ id, id ≠ l.1 →
       games (disconnect_listener now socketId l s) !! id = games s !! id)
  ∧ disconnectListeners (disconnect_listener now socketId l s)
    = disconnectListeners s
  ∧ gameListeners (disconnect_listener now socketId l s) = gameListeners s.
Proof.
  unfold disconnect_listener. destruct (objects s !! l.2); [|done].
  case_bool_decide; simpl; repeat split; try done.
  - intros r Hr. by rewrite list_lookup_insert_ne.
  - intros id Hid. by rewrite lookup_delete_ne.
  - intros r Hr. by rewrite list_lookup_insert_ne.
Qed.

Lemma disconnect_listeners_frame now socketId ls s :
  let s' := foldl (fun s' l => disconnect_listener now socketId l s') s ls in
  (∀ r, (∀ l, l ∈ ls → l.2 ≠ r) → objects s' !! r = objects s !! r)
  ∧ (∀ id, (∀ l, l ∈ ls → l.1 ≠ id) → games s' !! id = games s !! id)
  ∧ disconnectListeners s' = disconnectListeners s
  ∧ gameListeners s' = gameListeners s.
Proof.
  revert s. induction ls as [|l ls IH]; intros s; [done|]. simpl.
  destruct (IH (disconnect_listener now socketId l s)) as (H1 & H2 & H3 & H4).
  destruct (disconnect_listener_frame now socketId l s) as (F1 & F2 & F3 & F4).
  split; [|split; [|split]].
  - intros r Hr. rewrite H1 by (intros l' Hl'; apply Hr; by right).
    apply F1. intros ->. destruct (Hr l); [by left|done].
  - intros id Hid. rewrite H2 by (intros l' Hl'; apply Hid; by right).
    apply F2. intros ->. destruct (Hid l); [by left|done].
  - congruence.
  - congruence.
Qed.

(** X17. When a socket disconnects, the process only removes: no room
    object is created, no room id is registered and no room gains a
    player; no message is emitted to an individual socket (the log of
    socket.emit is unchanged; the broadcasts that removePlayer makes to
    the members of the rooms the socket leaves are not its subject); the
    socket loses all its listeners while the other
    sockets keep theirs; and the room objects and registry entries for
    which the socket had no disconnect listener are left as they were. *)
Theorem disconnect_only_removes (now : Q) (socketId : string) (s : Server) :
  let ls := default [] (disconnectListeners s !! socketId) in
  let s' := disconnect now socketId s in
  admits_nothing s s'
  ∧ sent s' = sent s
  ∧ disconnectListeners s' = delete socketId (disconnectListeners s)
  ∧ gameListeners s' = delete socketId (gameListeners s)
  ∧ (∀ r, (∀ l, l ∈ ls → l.2 ≠ r) → objects s' !! r = objects s !! r)
  ∧ (∀ id, (∀ l, l ∈ ls → l.1 ≠ id) → games s' !! id = games s !! id).
Proof.
  intros ls s'.
  split; [apply disconnect_admits_nothing|].
  split; [apply disconnect_sent|].
  subst s'. unfold disconnect. fold ls. simpl.
  destruct (disconnect_listeners_frame now socketId ls s)
    as (H1 & H2 & -> & ->).
  by repeat split.
Qed.

(** X18. A disconnect listener unregisters its room by id, without
    looking at which room object the registry holds for that id.  If the
    socket has a listener for an object that is empty, the room id is
    unregistered even when the registry has meanwhile given that id to
    another room object for which the socket has no listener: that
    object is left exactly as it was, players and running loop
    included, but is no longer registered. *)
Theorem disconnect_unregisters_by_room_id
    (now : Q) (socketId roomId : string) (own other : nat)
    (ls : list (string * nat)) (s : Server) (g1 g2 : ServerGame) :
  disconnectListeners s !! socketId = Some ls →
  (roomId, own) ∈ ls →
  objects s !! own = Some g1 →
  players g1 = ∅ →
  games s !! roomId = Some other →
  objects s !! other = Some g2 →
  (∀ l, l ∈ ls → l.2 ≠ other) →
  games (disconnect now socketId s) !! roomId = None
  ∧ objects (disconnect now socketId s) !! other = Some g2.
Proof.
  intros Hls Hin Hown Hempty Hreg Hother Hforeign.
  unfold disconnect. rewrite Hls. simpl.
  destruct (listeners_destroy now socketId ls roomId own s Hin) as [Hgone _].
  { exists g1. split; [done|]. intros sid _. by rewrite Hempty, lookup_empty. }
  split; [done|].
  destruct (disconnect_listeners_frame now socketId ls s) as (H1 & _).
  by rewrite H1.
Qed.

End Entry.

(** * The further properties on example rooms *)

Lemma started_room_is_sound `{BG : BaseGame} (now : Q) :
  room_sound (start now new_ServerGame).
Proof.
  unfold room_sound, players_injective, paddleEdges. simpl.
  split; [constructor|]. split; [|split].
  - intros socketId e Hs. by rewrite lookup_empty in Hs.
  - intros s1 s2 e Hs. by rewrite lookup_empty in Hs.
  - intros e He. by apply not_elem_of_empty in He.
Qed.

Lemma empty_server_is_ok : server_ok empty_server.
Proof.
  unfold server_ok. simpl. repeat split.
  - intros id r Hr. by rewrite lookup_empty in Hr.
  - intros sid ls l Hl. by rewrite lookup_empty in Hl.
  - intros sid r Hr. by rewrite lookup_empty in Hr.
  - intros id1 id2 r Hr. by rewrite lookup_empty in Hr.
Qed.

(** "c" joins the room of "a" and "b" and leaves again. *)
Lemma addPlayer_then_removePlayer_restores_witness :
  let g := demo_room COUNTDOWN 0 ∅ in
  players (removePlayer (BG:=demo_base) 2000 "c"
             (addPlayer (BG:=demo_base) "c" g).2) = players g
  ∧ paddleEdges (removePlayer (BG:=demo_base) 2000 "c"
                   (addPlayer (BG:=demo_base) "c" g).2) = paddleEdges g.
Proof.
  apply (addPlayer_then_removePlayer_restores (BG:=demo_base) 2000 "c"
           (demo_room COUNTDOWN 0 ∅)).
  vm_compute. reflexivity.
Defined.

(** "a" creates a room, joins it a second time, readies up, "b" joins,
    "a" leaves and "b" steers. *)
Lemma calls_keep_room_sound_witness :
  room_sound
    (run (BG:=demo_base)
       [OpAddPlayer "a"; OpAddPlayer "a"; OpToggleReady 1 "a" true;
        OpAddPlayer "b"; OpRemovePlayer 2 "a"; OpHandleInput "b" 1]
       (start 0 (new_ServerGame (BG:=demo_base)))).
Proof.
  apply (calls_keep_room_sound (BG:=demo_base)).
  - repeat constructor.
  - apply started_room_is_sound.
Defined.

Lemma calls_move_phase_by_restart_or_termination_witness :
  gameState (run (BG:=demo_base)
               [OpToggleReady 1 "a" true; OpToggleReady 2 "b" true;
                OpHandleInput "a" 1; OpRemovePlayer 3 "b"]
               (demo_room SCORING 0 ∅)) = SCORING
  ∨ gameState (run (BG:=demo_base)
                 [OpToggleReady 1 "a" true; OpToggleReady 2 "b" true;
                  OpHandleInput "a" 1; OpRemovePlayer 3 "b"]
                 (demo_room SCORING 0 ∅)) = COUNTDOWN.
Proof.
  apply (calls_move_phase_by_restart_or_termination (BG:=demo_base)
           [OpToggleReady 1 "a" true; OpToggleReady 2 "b" true;
            OpHandleInput "a" 1; OpRemovePlayer 3 "b"]
           (demo_room SCORING 0 ∅)).
  repeat constructor.
Defined.

Lemma calls_emit_gameTerminated_at_most_once_witness :
  let ops := [OpRemovePlayer 1 "a"; OpToggleReady 2 "b" true;
              OpAddPlayer "c"; OpRemovePlayer 3 "b"; OpRemovePlayer 4 "c"] in
  let g := demo_room PLAYING 0 ∅ in
  count_gameTerminated (out (run (BG:=demo_base) ops g))
  = count_gameTerminated (out g)
  ∨ (count_gameTerminated (out (run (BG:=demo_base) ops g))
     = S (count_gameTerminated (out g))
     ∧ running g = true ∧ gameState g = PLAYING
     ∧ gameState (run (BG:=demo_base) ops g) = TERMINATED
     ∧ running (run (BG:=demo_base) ops g) = false).
Proof.
  apply (calls_emit_gameTerminated_at_most_once (BG:=demo_base)).
  repeat constructor.
Defined.

(** "a" is ready; the toggle of "b" restarts the match. *)
Lemma toggleReady_restarts_iff_all_ready_witness :
  let g := demo_room SCORING 0 {[0]} in
  (gameState (toggleReady (BG:=demo_base) 2000 "b" true g) = COUNTDOWN ↔
     (celebrationTimer (sim g) <= 0)%Q
     ∧ ∀ other e', players g !! other = Some e' → e' ∈ readyEdges g ∪ {[1]})
  ∧ (gameState (toggleReady (BG:=demo_base) 2000 "b" true g) = COUNTDOWN →
     readyEdges (toggleReady (BG:=demo_base) 2000 "b" true g) = ∅
     ∧ lastTime (toggleReady (BG:=demo_base) 2000 "b" true g) = 2000%Q
     ∧ ∃ s1 s2, out (toggleReady (BG:=demo_base) 2000 "b" true g)
                = out g ++ [gameStateMsg s1; gameStateMsg s2]
                ∧ s_gameState s1 = SCORING ∧ s_gameState s2 = COUNTDOWN).
Proof.
  apply (toggleReady_restarts_iff_all_ready (BG:=demo_base) 2000 "b" 1
           (demo_room SCORING 0 {[0]}));
    [reflexivity | reflexivity | vm_compute; reflexivity].
Defined.

(** "b" is ready and "a", who is not, leaves. *)
Lemma removePlayer_during_ready_check_witness :
  let g := demo_room SCORING 0 {[1]} in
  gameState (removePlayer (BG:=demo_base) 2000 "a" g) = COUNTDOWN
  ∧ readyEdges (removePlayer (BG:=demo_base) 2000 "a" g) = ∅
  ∧ players (removePlayer (BG:=demo_base) 2000 "a" g) = delete "a" (players g).
Proof.
  apply (removePlayer_during_ready_check (BG:=demo_base) 2000 "a" 0
           (demo_room SCORING 0 {[1]})).
  - reflexivity.
  - reflexivity.
  - vm_compute. discriminate.
  - vm_compute. reflexivity.
  - exists "b". split; [discriminate|]. exists 1. vm_compute. reflexivity.
  - intros other e' Hne Hother. simpl in Hother.
    apply lookup_insert_Some in Hother as [[Heq _]|[_ Hother]]; [congruence|].
    apply lookup_singleton_Some in Hother as [_ <-].
    split; [lia|]. simpl. by apply elem_of_singleton.
Defined.

(** A tick whose step throws. *)
Lemma faulty_tick_stops_the_room_for_good_witness :
  let g := demo_room PLAYING 0 ∅ in
  let g' := timer_fires (BG:=faulty_base) 1016 g in
  running g' = false
  ∧ interval g' = false
  ∧ out g' = out g
  ∧ ∀ ops, running (run (BG:=faulty_base) ops g') = false
           ∧ interval (run (BG:=faulty_base) ops g') = false
           ∧ ∀ t, timer_fires (BG:=faulty_base) t (run (BG:=faulty_base) ops g')
                  = run (BG:=faulty_base) ops g'.
Proof.
  apply (faulty_tick_stops_the_room_for_good (BG:=faulty_base) 1016
           (demo_room PLAYING 0 ∅)); reflexivity.
Defined.

(** "b" joins the room "R" that "a" is playing in. *)
Lemma joinRoom_binds_the_socket_to_the_room_witness :
  let s := solo_server PLAYING in
  let s' := joinRoom (BG:=demo_base) None 2000 "b" (JoinString "R") s in
  ∃ r, games s' !! "R" = Some r
       ∧ r < length (objects s')
       ∧ gameListeners s' !! "b" = Some r
       ∧ disconnectListeners s' !! "b" = Some ([] ++ [("R", r)])
       ∧ (r = 0 ∧ length (objects s') = length (objects s))
       ∧ (∀ id, id ≠ "R" → games s' !! id = games s !! id)
       ∧ (∀ other, other ≠ "b" →
            disconnectListeners s' !! other = disconnectListeners s !! other
            ∧ gameListeners s' !! other = gameListeners s !! other)
       ∧ (∀ r', r' ≠ r → r' < length (objects s) →
            objects s' !! r' = objects s !! r').
Proof.
  apply (joinRoom_binds_the_socket_to_the_room (BG:=demo_base) None 2000 "b"
           (JoinString "R") (solo_server PLAYING)).
  - reflexivity.
  - intros id r Hr. simpl in Hr.
    apply lookup_singleton_Some in Hr as [_ <-]. simpl. lia.
Defined.

Lemma joinRoom_creates_and_starts_the_room_witness :
  let s' := joinRoom (BG:=demo_base) (Some "A") 2000 "a"
              (JoinObject "R" (Some "A")) empty_server in
  games s' !! "R" = Some 0
  ∧ ∃ g, objects s' = [g]
         ∧ running g = true ∧ interval g = true ∧ lastTime g = 2000%Q
         ∧ ((players g = ∅
             ∧ sent s' = [("a", initMsg (-1) (sides (sim g)) "A")])
            ∨ ∃ e, players g = {["a" := e]}
                   ∧ e ∈ paddleEdges g
                   ∧ sent s' = [("a", initMsg (Z.of_nat e) (sides (sim g)) "A")]).
Proof.
  apply (joinRoom_creates_and_starts_the_room (BG:=demo_base) (Some "A") 2000
           "a" (JoinObject "R" (Some "A")) empty_server).
  - reflexivity.
  - apply empty_server_is_ok.
  - reflexivity.
Defined.

(** A sixth socket asks for the full pentagon. *)
Lemma joinRoom_to_a_full_room_witness :
  let s' := joinRoom (BG:=demo_base) None 2000 "f" (JoinString "R") full_server in
  objects s' = objects full_server
  ∧ games s' = games full_server
  ∧ sent s' = [("f", initMsg (-1) 5 "local")]
  ∧ gameListeners s' !! "f" = Some 0
  ∧ disconnectListeners s' !! "f" = Some ([] ++ [("R", 0)]).
Proof.
  apply (joinRoom_to_a_full_room (BG:=demo_base) None 2000 "f"
           (JoinString "R") full_server 0 full_room).
  - reflexivity.
  - intros id r Hr. simpl in Hr.
    apply lookup_singleton_Some in Hr as [_ <-]. simpl. lia.
  - reflexivity.
  - reflexivity.
  - simpl. lia.
Defined.

Lemma serve_keeps_references_valid_witness :
  server_ok
    (serve (BG:=demo_base) (Some "A")
       [EvJoinRoom 0 "a" (JoinString "R"); EvJoinRoom 1 "b" (JoinString "S");
        EvJoinRoom 2 "c" (JoinObject "R" (Some "B")); EvInput "a" 1;
        EvTimer 16 0; EvPlayerReady 3 "b" true; EvDisconnect 4 "a";
        EvJoinRoom 5 "b" (JoinString "R")]
       empty_server).
Proof.
  apply (serve_keeps_references_valid (BG:=demo_base)).
  exact empty_server_is_ok.
Defined.

(** "z", who was turned away from the first room "R", disconnects after
    "c" has created the second one: "R" is unregistered although "c" is
    playing in it. *)
Lemma disconnect_unregisters_by_room_id_witness :
  ∃ g2, objects rejoined_server !! 1 = Some g2
        ∧ players g2 = {["c" := 0]}
        ∧ running g2 = true
        ∧ games rejoined_server !! "R" = Some 1
        ∧ games (disconnect (BG:=duel_base) 6 "z" rejoined_server) !! "R" = None
        ∧ objects (disconnect (BG:=duel_base) 6 "z" rejoined_server) !! 1
          = Some g2.
Proof.
  eexists. split; [vm_compute; reflexivity|].
  split; [vm_compute; reflexivity|]. split; [reflexivity|].
  split; [vm_compute; reflexivity|].
  eapply (disconnect_unregisters_by_room_id (BG:=duel_base) 6 "z" "R" 0 1
            [("R", 0)] rejoined_server).
  - vm_compute. reflexivity.
  - by left.
  - vm_compute. reflexivity.
  - vm_compute. reflexivity.
  - vm_compute. reflexivity.
  - vm_compute. reflexivity.
  - intros l Hl. apply list_elem_of_singleton in Hl. subst l. simpl. lia.
Defined.

(** * The clock, and edges that come free *)

Section ClockAndEdges.
Context `{BG : BaseGame}.

Lemma checkAllReady_lastTime now g :
  lastTime (checkAllReady now g) = lastTime g
  ∨ lastTime (checkAllReady now g) = now.
Proof.
  destruct (checkAllReady_cases now g) as [(-> & Hrest & _)|[-> _]]; [|by left].
  right. by destruct (resetGame_fresh now g Hrest) as (_ & _ & _ & _ & H & _).
Qed.

Lemma call_lastTime T op g :
  read_before T op → (lastTime g <= T)%Q → (lastTime (apply_op op g) <= T)%Q.
Proof.
  destruct op as [socketId|now socketId|now socketId isReady|socketId dir|time];
    simpl; intros Hread Hpast; [| | | |done].
  - by destruct (addPlayer_refuses_or_seats_aux socketId g) as [->|_];
      [|unfold addPlayer; destruct (_ <=? _); [|destruct (_ <=? _)]].
  - unfold removePlayer. destruct (players g !! socketId); [|done].
    set (g4 := broadcastState _).
    assert (lastTime (checkAllReady now g4) <= T)%Q as H5.
    { destruct (checkAllReady_lastTime now g4) as [->| ->]; done. }
    by destruct (running _ && _).
  - unfold toggleReady. destruct (players g !! socketId); [|done].
    set (g2 := broadcastState _).
    destruct (checkAllReady_lastTime now g2) as [->| ->]; [|done].
    subst g2. by destruct isReady.
  - unfold handleInput. case_bool_decide; [done|].
    by destruct (players g !! socketId).
Qed.

(** X19. Calls never put lastTime ahead of the clock: if lastTime is at
    most [T] and every call of a sequence was made when the clock read at
    most [T], then lastTime is still at most [T] afterwards, so that a
    tick at time [T] computes a time delta between 0 and 0.1. *)
Theorem calls_leave_lastTime_behind_the_clock
    (T : Q) (ops : list RoomOp) (g : ServerGame) :
  Forall (read_before T) ops →
  (lastTime g <= T)%Q →
  (lastTime (run ops g) <= T)%Q
  ∧ (0 <= loop_dt T (run ops g))%Q
  ∧ (loop_dt T (run ops g) <= 1 # 10)%Q.
Proof.
  intros Hops Hpast.
  assert (lastTime (run ops g) <= T)%Q as Hlast.
  { revert g Hpast. induction Hops as [|op ops Hop _ IH]; intros g Hpast;
      [done|].
    unfold run in *. simpl. by apply IH, call_lastTime. }
  split; [done|]. unfold loop_dt.
  destruct (Qlt_le_dec (1 # 10) ((T - lastTime (run ops g)) / 1000))
    as [Hbig|Hsmall]; [done|].
  split; [|done]. apply Qle_shift_div_l; [done|]. lra.
Qed.

Lemma filter_present_edge (e : nat) (l : list nat) :
  e ∈ l → length (filter (fun x => x ≠ e) l) < length l.
Proof.
  induction l as [|x l IH]; [intros Hin; by apply elem_of_nil in Hin|].
  intros Hin. rewrite filter_cons. simpl.
  pose proof (length_filter (fun x => x ≠ e) l) as Hle.
  destruct (decide (x ≠ e)) as [Hne|Heq]; simpl; [|lia].
  apply elem_of_cons in Hin as [->|Hin]; [done|]. apply IH in Hin. lia.
Qed.

(** X20. Leaving frees the edge.  When the player on edge [e] leaves a
    sound room that had no more paddles than sides, the next addPlayer is
    accepted, and it hands out a free edge no higher than [e]. *)
Theorem removePlayer_frees_the_edge
    (now : Q) (socketId next : string) (e : nat) (g : ServerGame) :
  room_sound g →
  players g !! socketId = Some e →
  let g' := removePlayer now socketId g in
  e < sides (sim g') →
  length (paddles g) ≤ sides (sim g') →
  ∃ e', (addPlayer next g').1 = Z.of_nat e'
        ∧ e' ≤ e
        ∧ (e' ∉ paddleEdges g')
        ∧ players (addPlayer next g').2 !! next = Some e'.
Proof.
  intros (Hnd & Hseat & _ & _) Hsock g' He Hroom.
  assert (paddleEdges g' = filter (fun x => x ≠ e) (paddleEdges g)) as Hedges.
  { subst g'. by rewrite removePlayer_edges, Hsock. }
  assert (e ∉ paddleEdges g') as Hfree.
  { rewrite Hedges, list_elem_of_filter. by intros [Hne _]. }
  assert (length (paddles g') < sides (sim g')) as Hspace.
  { rewrite <- (length_map edgeIndex). fold (paddleEdges g'). rewrite Hedges.
    eapply Nat.lt_le_trans; [apply filter_present_edge; by eapply Hseat|].
    unfold paddleEdges. by rewrite length_map. }
  unfold addPlayer.
  rewrite (proj2 (Nat.leb_gt _ _) Hspace).
  destruct (scan_spec (occupiedIndices g') (sides (sim g')) (sides (sim g')) 0)
    as (_ & Hbelow & Hstop & _); [lia|].
  set (e' := scan _ _ _ _) in *.
  assert (e' ≤ e) as Hle.
  { destruct (decide (e' ≤ e)) as [|Hgt]; [done|]. exfalso.
    apply Hfree, elem_of_occupiedIndices, Hbelow. lia. }
  rewrite (proj2 (Nat.leb_gt _ _)) by lia.
  exists e'. simpl. split; [done|]. split; [done|]. split.
  - destruct Hstop as [Hstop|]; [|lia]. by rewrite <- elem_of_occupiedIndices.
  - apply lookup_insert_eq.
Qed.

End ClockAndEdges.

Lemma calls_leave_lastTime_behind_the_clock_witness :
  let g := run (BG:=demo_base)
             [OpToggleReady 1005 "a" true; OpToggleReady 1010 "b" true;
              OpAddPlayer "c"]
             (demo_room SCORING 0 ∅) in
  (lastTime g <= 1016)%Q
  ∧ (0 <= loop_dt 1016 g)%Q
  ∧ (loop_dt 1016 g <= 1 # 10)%Q.
Proof.
  apply (calls_leave_lastTime_behind_the_clock (BG:=demo_base) 1016
           [OpToggleReady 1005 "a" true; OpToggleReady 1010 "b" true;
            OpAddPlayer "c"]
           (demo_room SCORING 0 ∅)).
  - repeat constructor; simpl; discriminate.
  - simpl. discriminate.
Defined.

(** "a" and "b" have joined a new pentagon; "a" leaves edge 0 and "f" is
    given edge 0. *)
Lemma removePlayer_frees_the_edge_witness :
  let g := run (BG:=demo_base) [OpAddPlayer "a"; OpAddPlayer "b"]
             (start 0 (new_ServerGame (BG:=demo_base))) in
  let g' := removePlayer (BG:=demo_base) 2000 "a" g in
  ∃ e', (addPlayer (BG:=demo_base) "f" g').1 = Z.of_nat e'
        ∧ e' ≤ 0
        ∧ (e' ∉ paddleEdges g')
        ∧ players (addPlayer (BG:=demo_base) "f" g').2 !! "f" = Some e'.
Proof.
  apply (removePlayer_frees_the_edge (BG:=demo_base) 2000 "a" "f" 0
           (run (BG:=demo_base) [OpAddPlayer "a"; OpAddPlayer "b"]
              (start 0 (new_ServerGame (BG:=demo_base))))).
  - apply (call_keeps_room_sound (BG:=demo_base) (OpAddPlayer "b")); [exact I|].
    apply (call_keeps_room_sound (BG:=demo_base) (OpAddPlayer "a")); [exact I|].
    apply started_room_is_sound.
  - vm_compute. reflexivity.
  - vm_compute. lia.
  - vm_compute. lia.
Defined.
